(** * sparql-proxy: a shallow embedding of the HTTP front-end, the live-channel
    authentication, the filesystem cache stores and the chunk executor.

    Byte strings and JavaScript strings are [string]; JavaScript objects used
    as maps (response headers, the file system) are [gmap string _]; awaited
    calls that may reject return a sum whose left side is the thrown error. *)

From Stdlib Require Import Ascii String List Arith NArith ZArith Lia.
From stdpp Require Import base option strings list gmap.

Open Scope string_scope.

(** ** JavaScript values, truthiness and errors *)
Module Js.

#[local] Unset Elimination Schemes.
Inductive value : Type :=
| Undefined
| Null
| Bool (b : bool)
| Num (n : N)
| Str (s : string)
| Obj (fields : list (string * value)).
#[local] Set Elimination Schemes.

(** [!!v] *)
Definition truthy (v : value) : bool :=
  match v with
  | Undefined | Null => false
  | Bool b => b
  | Num n => negb (N.eqb n 0)
  | Str s => negb (String.eqb s "")
  | Obj _ => true
  end.

(** [a || b] *)
Definition or_else (a b : value) : value := if truthy a then a else b.

(** [o[k]] on a plain object; [undefined] when the key is absent or the
    value has no such own property. *)
Fixpoint assoc (k : string) (fields : list (string * value)) : value :=
  match fields with
  | [] => Undefined
  | (k', v) :: rest => if String.eqb k k' then v else assoc k rest
  end.

Definition prop (v : value) (k : string) : value :=
  match v with
  | Obj fields => assoc k fields
  | _ => Undefined
  end.

Definition of_option (o : option string) : value :=
  match o with
  | Some s => Str s
  | None => Undefined
  end.

(** A thrown [Error]: the fields the program reads. *)
Record error : Type := Error {
  name : string;
  message : string;
  code : option string;
  statusCode : option N;
  data : value
}.

Definition TypeError (msg : string) : error :=
  {| name := "TypeError"; message := msg; code := None;
     statusCode := None; data := Undefined |}.

Definition plain_error (msg : string) : error :=
  {| name := "Error"; message := msg; code := None;
     statusCode := None; data := Undefined |}.

(** The outcome of a call that returns or throws (an awaited promise that
    resolves or rejects). *)
Definition result (A : Type) : Type := error + A.

End Js.

(** ** Node's [crypto] module: the MD5 hash object *)
Module Crypto.

Definition mask32 (x : Z) : Z := Z.land x 0xffffffff.

Definition not32 (x : Z) : Z := Z.lxor x 0xffffffff.

Definition rotl32 (x s : Z) : Z :=
  mask32 (Z.lor (Z.shiftl x s) (Z.shiftr x (32 - s))).

(** [floor(2^32 * abs(sin(i + 1)))] for [i] from 0 to 63. *)
Definition K : list Z :=
  [0xd76aa478; 0xe8c7b756; 0x242070db; 0xc1bdceee;
   0xf57c0faf; 0x4787c62a; 0xa8304613; 0xfd469501;
   0x698098d8; 0x8b44f7af; 0xffff5bb1; 0x895cd7be;
   0x6b901122; 0xfd987193; 0xa679438e; 0x49b40821;
   0xf61e2562; 0xc040b340; 0x265e5a51; 0xe9b6c7aa;
   0xd62f105d; 0x02441453; 0xd8a1e681; 0xe7d3fbc8;
   0x21e1cde6; 0xc33707d6; 0xf4d50d87; 0x455a14ed;
   0xa9e3e905; 0xfcefa3f8; 0x676f02d9; 0x8d2a4c8a;
   0xfffa3942; 0x8771f681; 0x6d9d6122; 0xfde5380c;
   0xa4beea44; 0x4bdecfa9; 0xf6bb4b60; 0xbebfbc70;
   0x289b7ec6; 0xeaa127fa; 0xd4ef3085; 0x04881d05;
   0xd9d4d039; 0xe6db99e5; 0x1fa27cf8; 0xc4ac5665;
   0xf4292244; 0x432aff97; 0xab9423a7; 0xfc93a039;
   0x655b59c3; 0x8f0ccc92; 0xffeff47d; 0x85845dd1;
   0x6fa87e4f; 0xfe2ce6e0; 0xa3014314; 0x4e0811a1;
   0xf7537e82; 0xbd3af235; 0x2ad7d2bb; 0xeb86d391]%Z.

(** The per-round left rotations. *)
Definition shifts : list Z :=
  [7; 12; 17; 22; 7; 12; 17; 22; 7; 12; 17; 22; 7; 12; 17; 22;
   5; 9; 14; 20; 5; 9; 14; 20; 5; 9; 14; 20; 5; 9; 14; 20;
   4; 11; 16; 23; 4; 11; 16; 23; 4; 11; 16; 23; 4; 11; 16; 23;
   6; 10; 15; 21; 6; 10; 15; 21; 6; 10; 15; 21; 6; 10; 15; 21]%Z.

Definition bytes_of_string (s : string) : list Z :=
  map (fun c => Z.of_nat (nat_of_ascii c)) (list_ascii_of_string s).

(** [n] bytes of [x], the least significant first. *)
Fixpoint le_bytes (n : nat) (x : Z) : list Z :=
  match n with
  | 0 => []
  | S n' => (x mod 256)%Z :: le_bytes n' (x / 256)%Z
  end.

Fixpoint of_le_bytes (bs : list Z) : Z :=
  match bs with
  | [] => 0%Z
  | b :: rest => (b + 256 * of_le_bytes rest)%Z
  end.

(** The message, the byte [0x80], zeros up to 56 modulo 64, and the length
    in bits as 8 bytes. *)
Definition pad (msg : list Z) : list Z :=
  let len := Z.of_nat (length msg) in
  (msg ++ [0x80%Z] ++ repeat 0%Z (Z.to_nat ((- (len + 9)) mod 64))
   ++ le_bytes 8 (8 * len)%Z)%list.

(** [n] groups of [size] elements. *)
Fixpoint groups {A : Type} (n size : nat) (l : list A) : list (list A) :=
  match n with
  | 0 => []
  | S n' => take size l :: groups n' size (drop size l)
  end.

Definition State : Type := Z * Z * Z * Z.

Definition initial : State :=
  (0x67452301, 0xefcdab89, 0x98badcfe, 0x10325476)%Z.

Definition round (M : list Z) (st : State) (i : nat) : State :=
  let '(A, B, C, D) := st in
  let '(F, g) :=
    if Nat.ltb i 16 then (Z.lor (Z.land B C) (Z.land (not32 B) D), i)
    else if Nat.ltb i 32 then
      (Z.lor (Z.land D B) (Z.land (not32 D) C), (5 * i + 1) mod 16)
    else if Nat.ltb i 48 then (Z.lxor (Z.lxor B C) D, (3 * i + 5) mod 16)
    else (Z.lxor C (Z.lor B (not32 D)), (7 * i) mod 16) in
  let F := mask32 (F + A + nth i K 0 + nth g M 0)%Z in
  (D, mask32 (B + rotl32 F (nth i shifts 0%Z))%Z, B, C).

Definition process_block (st : State) (block : list Z) : State :=
  let M := map of_le_bytes (groups 16 4 block) in
  let '(a0, b0, c0, d0) := st in
  let '(A, B, C, D) := fold_left (round M) (seq 0 64) st in
  (mask32 (a0 + A), mask32 (b0 + B), mask32 (c0 + C), mask32 (d0 + D))%Z.

Definition md5 (msg : list Z) : list Z :=
  let padded := pad msg in
  let '(a, b, c, d) :=
    fold_left process_block (groups (length padded / 64) 64 padded) initial in
  (le_bytes 4 a ++ le_bytes 4 b ++ le_bytes 4 c ++ le_bytes 4 d)%list.

Definition hex_digit (d : Z) : ascii :=
  if (d <? 10)%Z then ascii_of_nat (48 + Z.to_nat d)
  else ascii_of_nat (87 + Z.to_nat d).

Fixpoint hex (bytes : list Z) : string :=
  match bytes with
  | [] => ""
  | b :: rest =>
      String (hex_digit ((b / 16) mod 16)) (String (hex_digit (b mod 16)) (hex rest))
  end.

Definition md5_hex (data : string) : string := hex (md5 (bytes_of_string data)).

(** The hash object of [crypto.createHash('md5')]: [update] appends to the
    data, [digest('hex')] hashes all of it. *)
Record Hash : Type := { hashed : string }.

Definition createHash : Hash := {| hashed := "" |}.

Definition update (d : string) (h : Hash) : Hash :=
  {| hashed := hashed h +:+ d |}.

Definition digest_hex (h : Hash) : string := md5_hex (hashed h).

End Crypto.

(** ** The [cookie] package: [cookie.parse] *)
Module Cookie.

Definition is_ws (c : ascii) : bool :=
  match nat_of_ascii c with
  | 9 | 10 | 11 | 12 | 13 | 32 => true
  | _ => false
  end.

(** [str.split(/; */)] *)
Fixpoint split_pairs_from (after_semicolon : bool) (s : string) : list string :=
  match s with
  | EmptyString => [""]
  | String c s' =>
      if after_semicolon && Ascii.eqb c " " then split_pairs_from true s'
      else if Ascii.eqb c ";" then "" :: split_pairs_from true s'
      else match split_pairs_from false s' with
           | piece :: rest => String c piece :: rest
           | [] => [String c ""]
           end
  end.

Definition split_pairs (s : string) : list string := split_pairs_from false s.

(** [pair.indexOf('=')], with the text before and after it. *)
Fixpoint cut_at_eq (s : string) : option (string * string) :=
  match s with
  | EmptyString => None
  | String c s' =>
      if Ascii.eqb c "=" then Some ("", s')
      else match cut_at_eq s' with
           | Some (k, v) => Some (String c k, v)
           | None => None
           end
  end.

Fixpoint trim_start (s : string) : string :=
  match s with
  | String c s' => if is_ws c then trim_start s' else s
  | EmptyString => EmptyString
  end.

Definition trim (s : string) : string :=
  String.rev (trim_start (String.rev (trim_start s))).

(** [val.slice(1, -1)] *)
Definition strip_quotes (s : string) : string :=
  match s with
  | String c s' =>
      if Ascii.eqb c (ascii_of_nat 34)
      then match String.rev s' with
           | String _ r => String.rev r
           | EmptyString => EmptyString
           end
      else s
  | EmptyString => EmptyString
  end.

Definition hex_digit (c : ascii) : option nat :=
  let n := nat_of_ascii c in
  if Nat.leb 48 n && Nat.leb n 57 then Some (n - 48)
  else if Nat.leb 97 n && Nat.leb n 102 then Some (n - 87)
  else if Nat.leb 65 n && Nat.leb n 70 then Some (n - 55)
  else None.

(** [decodeURIComponent] on bytes: every [%XX] becomes the byte it names;
    [None] for a [%] that two hex digits do not follow (the call throws).
    The check that the decoded bytes are UTF-8 is left out. *)
Fixpoint percent_decode (s : string) : option string :=
  match s with
  | EmptyString => Some EmptyString
  | String c s' =>
      if Ascii.eqb c "%" then
        match s' with
        | String h (String l s'') =>
            match hex_digit h, hex_digit l, percent_decode s'' with
            | Some a, Some b, Some r => Some (String (ascii_of_nat (16 * a + b)) r)
            | _, _, _ => None
            end
        | _ => None
        end
      else
        match s' with
        | EmptyString => Some (String c EmptyString)
        | _ => match percent_decode s' with
               | Some r => Some (String c r)
               | None => None
               end
        end
  end.

(** [tryDecode]: the value itself when decoding throws. *)
Definition tryDecode (s : string) : string :=
  match percent_decode s with
  | Some r => r
  | None => s
  end.

Fixpoint lookup (k : string) (obj : list (string * string)) : option string :=
  match obj with
  | [] => None
  | (k', v) :: rest => if String.eqb k k' then Some v else lookup k rest
  end.

(** The loop over the pairs; a key is assigned only once. *)
Fixpoint parse_pairs (pairs : list string) (obj : list (string * string))
    : list (string * string) :=
  match pairs with
  | [] => obj
  | kv :: rest =>
      match cut_at_eq kv with
      | None => parse_pairs rest obj
      | Some (k, v) =>
          let key := trim k in
          let val := strip_quotes (trim v) in
          match lookup key obj with
          | None => parse_pairs rest (obj ++ [(key, tryDecode val)])
          | Some _ => parse_pairs rest obj
          end
      end
  end.

(** [cookie.parse(str)]: a [TypeError] unless [str] is a string. *)
Definition parse (str : option string) : Js.result (list (string * string)) :=
  match str with
  | None => inl (Js.TypeError "argument str must be a string")
  | Some s => inr (parse_pairs (split_pairs s) [])
  end.

(** *** What Express's [res.cookie] does with a value: [cookie.serialize] *)

(** The characters [encodeURIComponent] leaves alone. *)
Definition unreserved (c : ascii) : bool :=
  let n := nat_of_ascii c in
  (Nat.leb 65 n && Nat.leb n 90) || (Nat.leb 97 n && Nat.leb n 122)
  || (Nat.leb 48 n && Nat.leb n 57)
  || existsb (Ascii.eqb c) ["-"; "_"; "."; "!"; "~"; "*"; "'"; "("; ")"]%char.

Definition upper_hex (d : nat) : ascii :=
  if Nat.ltb d 10 then ascii_of_nat (48 + d) else ascii_of_nat (55 + d).

(** [encodeURIComponent] on bytes: every byte that is not unreserved
    becomes [%XX]. *)
Fixpoint encodeURIComponent (s : string) : string :=
  match s with
  | EmptyString => EmptyString
  | String c s' =>
      if unreserved c then String c (encodeURIComponent s')
      else String "%" (String (upper_hex (nat_of_ascii c / 16))
                         (String (upper_hex (nat_of_ascii c mod 16))
                            (encodeURIComponent s')))
  end.

(** [fieldContentRegExp]: one or more of tab, [0x20] to [0x7e], [0x80] to
    [0xff]. *)
Definition field_char (c : ascii) : bool :=
  let n := nat_of_ascii c in
  Nat.eqb n 9 || (Nat.leb 32 n && Nat.leb n 126) || Nat.leb 128 n.

Fixpoint field_chars (s : string) : bool :=
  match s with
  | EmptyString => true
  | String c s' => field_char c && field_chars s'
  end.

Definition field_content (s : string) : bool :=
  negb (String.eqb s "") && field_chars s.

(** [cookie.serialize(name, val, {path: path})] *)
Definition serialize (name val path : string) : Js.result string :=
  if negb (field_content name)
  then inl (Js.TypeError "argument name is invalid")
  else
    let value := encodeURIComponent val in
    if negb (String.eqb value "") && negb (field_content value)
    then inl (Js.TypeError "argument val is invalid")
    else
      let str := name +:+ "=" +:+ value in
      if negb (String.eqb path "") then
        if negb (field_content path)
        then inl (Js.TypeError "option path is invalid")
        else inr (str +:+ "; Path=" +:+ path)
      else inr str.

(** Characters that neither end a pair nor get trimmed or unquoted. *)
Definition plain_char (c : ascii) : bool :=
  negb (is_ws c) && negb (Ascii.eqb c ";") && negb (Ascii.eqb c (ascii_of_nat 34)).

Fixpoint plain_chars (s : string) : bool :=
  match s with
  | EmptyString => true
  | String c s' => plain_char c && plain_chars s'
  end.

End Cookie.

(** ** Node's [path] module (POSIX): [path.join] and [path.normalize] *)
Module Path.

(** [s.split('/')] *)
Fixpoint split (s : string) : list string :=
  match s with
  | EmptyString => [""]
  | String c s' =>
      if Ascii.eqb c "/" then "" :: split s'
      else match split s' with
           | seg :: rest => String c seg :: rest
           | [] => [String c ""]
           end
  end.

(** One segment of [normalizeString]; [stack] holds the segments kept so
    far, the last one first. *)
Definition step (allowAboveRoot : bool) (stack : list string) (seg : string)
    : list string :=
  if String.eqb seg "" || String.eqb seg "." then stack
  else if String.eqb seg ".." then
    match stack with
    | top :: below =>
        if String.eqb top ".."
        then (if allowAboveRoot then ".." :: stack else stack)
        else below
    | [] => if allowAboveRoot then [".."] else []
    end
  else seg :: stack.

Definition normalizeString (path : string) (allowAboveRoot : bool) : string :=
  String.concat "/" (rev (fold_left (step allowAboveRoot) (split path) [])).

Definition starts_with_slash (s : string) : bool :=
  match s with
  | String c _ => Ascii.eqb c "/"
  | EmptyString => false
  end.

Fixpoint ends_with_slash (s : string) : bool :=
  match s with
  | EmptyString => false
  | String c EmptyString => Ascii.eqb c "/"
  | String _ s' => ends_with_slash s'
  end.

Definition normalize (path : string) : string :=
  if String.eqb path "" then "."
  else
    let isAbsolute := starts_with_slash path in
    let trailingSeparator := ends_with_slash path in
    let p := normalizeString path (negb isAbsolute) in
    if String.eqb p "" then
      (if isAbsolute then "/" else if trailingSeparator then "./" else ".")
    else
      let p := if trailingSeparator then p +:+ "/" else p in
      if isAbsolute then "/" +:+ p else p.

Definition join (args : list string) : string :=
  match List.filter (fun a => negb (String.eqb a "")) args with
  | [] => "."
  | parts => normalize (String.concat "/" parts)
  end.

Fixpoint no_slash (s : string) : bool :=
  match s with
  | EmptyString => true
  | String c s' => negb (Ascii.eqb c "/") && no_slash s'
  end.

(** A segment that normalization keeps as it is. *)
Definition plain_segment (s : string) : bool :=
  negb (String.eqb s "") && negb (String.eqb s ".")
  && negb (String.eqb s "..") && no_slash s.

(** A directory path in normal form: normalization leaves it alone, it
    has no trailing separator and it is not the current directory. *)
Definition normal_dir (p : string) : bool :=
  String.eqb (normalize p) p && negb (ends_with_slash p)
  && negb (String.eqb p ".").

(** [path.join] when arguments may be [undefined]: a [TypeError] for the
    first argument that is not a string. *)
Fixpoint strings_of (args : list (option string)) : option (list string) :=
  match args with
  | [] => Some []
  | Some a :: rest =>
      match strings_of rest with
      | Some l => Some (a :: l)
      | None => None
      end
  | None :: _ => None
  end.

Definition join_checked (args : list (option string)) : Js.result string :=
  match strings_of args with
  | Some l => inr (join l)
  | None => inl (Js.TypeError "Path must be a string. Received undefined")
  end.

(** *** [path.dirname] *)

Fixpoint only_slashes (s : string) : bool :=
  match s with
  | EmptyString => true
  | String c s' => Ascii.eqb c "/" && only_slashes s'
  end.

(** What stands before the last separator of [s] that something other than
    separators follows; [None] when [s] has no such separator. This is where
    the backward loop of [dirname] stops. *)
Fixpoint before_last_name (s : string) : option string :=
  match s with
  | EmptyString => None
  | String c s' =>
      match before_last_name s' with
      | Some pre => Some (String c pre)
      | None =>
          if Ascii.eqb c "/" && negb (only_slashes s') then Some EmptyString
          else None
      end
  end.

(** The loop runs over the indices from the last down to 1; the first
    character only decides [hasRoot]. *)
Definition dirname (path : string) : string :=
  match path with
  | EmptyString => "."
  | String c rest =>
      match before_last_name rest with
      | None => if Ascii.eqb c "/" then "/" else "."
      | Some pre =>
          if Ascii.eqb c "/" && String.eqb pre "" then "//"
          else String c pre
      end
  end.

(** [p], its parent, the parent of that, and so on, up to but without the
    root directory and the current directory. *)
Fixpoint lineage (fuel : nat) (p : string) : list string :=
  match fuel with
  | 0 => []
  | S fuel' =>
      if String.eqb p "/" || String.eqb p "." then []
      else p :: lineage fuel' (dirname p)
  end.

Definition ancestors (p : string) : list string := lineage (String.length p) p.

End Path.

(** ** The server module (first module of part_000): configuration,
    the [/sparql] handler and the live-channel middleware. *)
Module Server.

Import Js.

Record Config : Type := {
  port : N;
  backend : option string;
  maxConcurrency : N;
  maxWaiting : option N;             (* [None] is Infinity *)
  adminUser : string;
  adminPassword : string;
  cacheStore : string;
  compressor : string;
  jobTimeout : N;
  durationToKeepOldJobs : N;
  enableQuerySplitting : bool;
  maxChunkLimit : N;
  maxLimit : N;
  trustProxy : string;
  queryLogPath : option string
}.

(** The configuration when only [SPARQL_BACKEND] is set. *)
Definition default_config (backend_url : string) : Config :=
  {| port := 3000%N; backend := Some backend_url; maxConcurrency := 1%N;
     maxWaiting := None; adminUser := "admin"; adminPassword := "password";
     cacheStore := "null"; compressor := "raw";
     jobTimeout := (5 * 60 * 1000)%N;
     durationToKeepOldJobs := (5 * 60 * 1000)%N;
     enableQuerySplitting := false; maxChunkLimit := 1000%N; maxLimit := 10000%N;
     trustProxy := "false"; queryLogPath := None |}.

Definition secret (cfg : Config) : string :=
  adminUser cfg +:+ ":" +:+ adminPassword cfg.

Definition cookieKey : string := "sparql-proxy-token".

Definition default_accept : string := "application/sparql-results+json".

(** What the body parsers leave in [req.body]: the text of an
    [application/sparql-query] body, or the (possibly empty) object of the
    form fields. *)
Inductive ReqBody : Type :=
| BodyText (s : string)
| BodyFields (fields : list (string * value)).

Record Request : Type := {
  method : string;
  query : list (string * value);       (* req.query *)
  is_sparql_query : bool;              (* req.is('application/sparql-query') *)
  body : ReqBody;                      (* req.body *)
  header_accept : option string;       (* req.headers.accept *)
  ip : string
}.

(** The response object [res]: status (200 until set), headers, and the
    argument of [res.send] once it has been called. *)
Record Response : Type := {
  status : N;
  headers : gmap string string;
  sent : option value
}.

Definition fresh_response : Response :=
  {| status := 200%N; headers := ∅; sent := None |}.

Definition res_status (n : N) (r : Response) : Response :=
  {| status := n; headers := headers r; sent := sent r |}.

Definition res_header (k v : string) (r : Response) : Response :=
  {| status := status r; headers := <[k := v]> (headers r); sent := sent r |}.

Definition res_send (v : value) (r : Response) : Response :=
  {| status := status r; headers := headers r; sent := Some v |}.

(** A cache entry and a job result have the same shape. *)
Record CacheEntry : Type := {
  contentType : string;
  entry_body : value
}.

(** The argument of [new Job({...})]. *)
Record Job : Type := {
  job_backend : option string;
  rawQuery : value;
  job_accept : string;
  timeout : N;
  job_ip : string;
  job_enableQuerySplitting : bool;
  job_maxLimit : N;
  job_maxChunkLimit : N
}.

(** The libraries the handler calls besides [crypto]: the preamble
    splitter and the SPARQL parser and generator. *)
Record Lib : Type := {
  Ast : Type;
  splitPreamble : value -> result (string * string);
  parse : string -> result Ast;
  ast_type : Ast -> string;
  stringify : Ast -> string
}.

(** The collaborators the handler awaits: the cache store and the queue. *)
Record Env : Type := {
  cache_get : string -> result (option CacheEntry);
  cache_put : string -> CacheEntry -> result unit;
  queue_enqueue : Job -> value -> result CacheEntry
}.

(** What the handler does besides writing to [res], in program order. *)
Inductive Event : Type :=
| Console (msg : string)
| CacheGet (key : string)
| Enqueue (job : Job) (token : value)
| Responded (r : Response)
| CachePut (key : string) (entry : CacheEntry)
| QueryLog (q : value) (cache_hit : bool) (content_type : string) (b : value).

(** The state threaded through one run of the handler. [thrown] is set
    when an exception escapes the handler. *)
Record Run : Type := {
  res : Response;
  events : list Event;
  thrown : option error
}.

Definition start (r : Response) : Run :=
  {| res := r; events := []; thrown := None |}.

Definition on_res (f : Response -> Response) (st : Run) : Run :=
  {| res := f (res st); events := events st; thrown := thrown st |}.

Definition emit (e : Event) (st : Run) : Run :=
  {| res := res st; events := events st ++ [e]; thrown := thrown st |}.

Definition throw (e : error) (st : Run) : Run :=
  {| res := res st; events := events st; thrown := Some e |}.

(** [res.send(v)]: the response leaves the process as it stands. *)
Definition send (v : value) (st : Run) : Run :=
  let st' := on_res (res_send v) st in
  emit (Responded (res st')) st'.

(** The closure [log]: one line is appended when a log path is configured.
    The timestamps it adds are not modelled. *)
Definition log (cfg : Config) (q : value) (hit : bool) (e : CacheEntry)
    (st : Run) : Run :=
  if truthy (of_option (queryLogPath cfg))
  then emit (QueryLog q hit (contentType e) (entry_body e)) st
  else st.

Definition NUL : string := String (ascii_of_nat 0) "".

(** The [switch (req.method)]. *)
Inductive Dispatch : Type :=
| WithQuery (q : value)
| Options
| NotAllowed.

Definition body_value (b : ReqBody) : value :=
  match b with
  | BodyText s => Str s
  | BodyFields fields => Obj fields
  end.

Definition dispatch (req : Request) : Dispatch :=
  if String.eqb (method req) "GET" then WithQuery (assoc "query" (query req))
  else if String.eqb (method req) "POST" then
    if is_sparql_query req then WithQuery (body_value (body req))
    else WithQuery (prop (body_value (body req)) "query")
  else if String.eqb (method req) "OPTIONS" then Options
  else NotAllowed.

(** [(config.enableQuerySplitting ? null : req.headers.accept) || '...json'] *)
Definition accept_of (cfg : Config) (req : Request) : string :=
  match or_else (if enableQuerySplitting cfg then Null
                 else of_option (header_accept req))
                (Str default_accept) with
  | Str s => s
  | _ => default_accept
  end.

Definition normalizedQuery_of (lib : Lib) (preamble : string) (ast : Ast lib)
    : string :=
  preamble +:+ stringify lib ast.

(** [createHash('md5').update(normalizedQuery).update("\0").update(accept)
    .digest('hex')] *)
Definition digest_of (normalizedQuery accept : string) : string :=
  Crypto.digest_hex
    (Crypto.update accept
       (Crypto.update NUL (Crypto.update normalizedQuery Crypto.createHash))).

Definition cacheKey_of (cfg : Config) (digest : string) : string :=
  digest +:+ "." +:+ compressor cfg.

Definition make_job (cfg : Config) (req : Request) (q : value)
    (accept : string) : Job :=
  {| job_backend := backend cfg;
     rawQuery := q;
     job_accept := accept;
     timeout := jobTimeout cfg;
     job_ip := ip req;
     job_enableQuerySplitting := enableQuerySplitting cfg;
     job_maxLimit := maxLimit cfg;
     job_maxChunkLimit := maxChunkLimit cfg |}.

(** The cache hit branch, lines 131-140. *)
Definition respond_hit (cfg : Config) (q : value) (cached : CacheEntry)
    (st : Run) : Run :=
  let st := emit (Console "cache hit") st in
  let st := on_res (res_header "Content-Type" (contentType cached)) st in
  let st := on_res (res_header "X-Cache" "hit") st in
  let st := send (entry_body cached) st in
  log cfg q true cached st.

(** Everything from [const token] on: build the job, await the queue,
    answer, then write behind to the cache. *)
Definition run_job (cfg : Config) (env : Env) (req : Request) (q : value)
    (accept cacheKey : string) (st : Run) : Run :=
  let token := assoc "token" (query req) in
  let job := make_job cfg req q accept in
  let st := emit (Enqueue job token) st in
  match queue_enqueue env job token with
  | inr result =>
      let st := on_res (res_header "Content-Type" (contentType result)) st in
      let st := send (entry_body result) st in
      let st := log cfg q false result st in
      let st := emit (CachePut cacheKey result) st in
      match cache_put env cacheKey result with
      | inr _ => st
      | inl _ => emit (Console "ERROR: in cache put:") st
      end
  | inl error =>
      let st := emit (Console "ERROR:") st in
      let st := on_res (res_status
                  (match or_else (match statusCode error with
                                  | Some n => Num n
                                  | None => Undefined
                                  end) (Num 500%N) with
                   | Num n => n
                   | _ => 500%N
                   end)) st in
      send (or_else (data error) (Str "ERROR")) st
  end.

(** The cache lookup of lines 127-144, falling through to [run_job]. *)
Definition lookup_then_run (cfg : Config) (env : Env) (req : Request)
    (q : value) (accept cacheKey : string) (st : Run) : Run :=
  let st := emit (CacheGet cacheKey) st in
  match cache_get env cacheKey with
  | inr (Some cached) => respond_hit cfg q cached st
  | inr None => run_job cfg env req q accept cacheKey st
  | inl _ =>
      run_job cfg env req q accept cacheKey
        (emit (Console "ERROR: in cache get:") st)
  end.

(** The handler of [app.all('/sparql', ...)]. *)
Definition sparql_handler (cfg : Config) (lib : Lib) (env : Env)
    (req : Request) (res0 : Response) : Run :=
  let st := start res0 in
  match dispatch req with
  | Options => on_res (res_status 200%N) st
  | NotAllowed => send (Str "Method Not Allowed") (on_res (res_status 405%N) st)
  | WithQuery q =>
      if negb (truthy q) then
        send (Obj [("message", Str "Query is required")])
             (on_res (res_status 400%N) st)
      else
        match splitPreamble lib q with
        | inl e => throw e st
        | inr (preamble, compatibleQuery) =>
            match parse lib compatibleQuery with
            | inl ex =>
                let st := emit (Console (message ex)) st in
                send (Obj [("message", Str "Query parse failed");
                           ("data", Str (message ex))])
                     (on_res (res_status 400%N) st)
            | inr parsedQuery =>
                if negb (String.eqb (ast_type lib parsedQuery) "query") then
                  let st := emit (Console ("Query type not allowed: "
                                           +:+ ast_type lib parsedQuery)) st in
                  send (Str "Query type not allowed")
                       (on_res (res_status 400%N) st)
                else
                  let normalizedQuery :=
                    normalizedQuery_of lib preamble parsedQuery in
                  let accept := accept_of cfg req in
                  let digest := digest_of normalizedQuery accept in
                  let cacheKey := cacheKey_of cfg digest in
                  lookup_then_run cfg env req q accept cacheKey st
            end
        end
  end.

(** The request passes every gate before the cache lookup: the method
    yields a query [q] that is truthy, the preamble splits off, the rest
    parses, and the AST has type ['query']. *)
Definition accepted (lib : Lib) (req : Request) (q : value)
    (preamble compatibleQuery : string) (ast : Ast lib) : Prop :=
  dispatch req = WithQuery q /\
  truthy q = true /\
  splitPreamble lib q = inr (preamble, compatibleQuery) /\
  parse lib compatibleQuery = inr ast /\
  ast_type lib ast = "query".

(** The keys the run hands to the cache store, in order. *)
Fixpoint cache_keys (evs : list Event) : list string :=
  match evs with
  | [] => []
  | CacheGet k :: rest => k :: cache_keys rest
  | CachePut k _ :: rest => k :: cache_keys rest
  | _ :: rest => cache_keys rest
  end.

(** The jobs the run hands to the queue, in order. *)
Fixpoint enqueued (evs : list Event) : list Job :=
  match evs with
  | [] => []
  | Enqueue job _ :: rest => job :: enqueued rest
  | _ :: rest => enqueued rest
  end.

(** The responses that left the process, in order. *)
Fixpoint responses (evs : list Event) : list Response :=
  match evs with
  | [] => []
  | Responded r :: rest => r :: responses rest
  | _ :: rest => responses rest
  end.

(** [if (cached)] on what the cache lookup resolved to; a rejected lookup
    is no hit. *)
Definition is_hit (r : result (option CacheEntry)) : bool :=
  match r with
  | inr (Some _) => true
  | _ => false
  end.

(** The same collaborators with another cache lookup or cache write. *)
Definition with_cache_get (env : Env)
    (g : string -> result (option CacheEntry)) : Env :=
  {| cache_get := g; cache_put := cache_put env;
     queue_enqueue := queue_enqueue env |}.

Definition with_cache_put (env : Env)
    (p : string -> CacheEntry -> result unit) : Env :=
  {| cache_get := cache_get env; cache_put := p;
     queue_enqueue := queue_enqueue env |}.

(** How a socket.io middleware ends: it calls [next()], calls
    [next(err)], or an exception escapes it. *)
Inductive Handshake : Type :=
| Accepted
| Refused (e : error)
| Crashed (e : error).

(** The middleware of [io.use]. [cookie_header] is
    [socket.request.headers.cookie]. *)
Definition io_auth (cfg : Config) (socket_id : string)
    (cookie_header : option string) : list Event * Handshake :=
  match Cookie.parse cookie_header with
  | inl e => ([], Crashed e)
  | inr cookies =>
      let secretProvided := Cookie.lookup cookieKey cookies in
      match secretProvided with
      | Some s =>
          if String.eqb s (secret cfg) then ([], Accepted)
          else ([Console (socket_id +:+ " socket.io authentication failed")],
                Refused (plain_error "Authentication error"))
      | None =>
          ([Console (socket_id +:+ " socket.io authentication failed")],
           Refused (plain_error "Authentication error"))
      end
  end.

(** *** The other routes *)

(** The handler of [app.get('/jobs/:token')]; [jobStatus] is
    [queue.jobStatus]. *)
Definition jobs_handler (jobStatus : string -> value) (token : string)
    (res0 : Response) : Run :=
  let js := jobStatus token in
  if negb (truthy js)
  then send (Str "Job not found") (on_res (res_status 404%N) (start res0))
  else send js (start res0).

(** The handler of [app.get('/admin')], reached once basic authentication
    has passed: the value [res.cookie(cookieKey, secret)] appends to
    [Set-Cookie] (Express serializes with the path [/]), before [next()]. *)
Definition admin_set_cookie (cfg : Config) : result string :=
  Cookie.serialize cookieKey (secret cfg) "/".

(** *** Reading a run *)

(** What the run hands to [cache.put], in order. *)
Fixpoint cache_puts (evs : list Event) : list (string * CacheEntry) :=
  match evs with
  | [] => []
  | CachePut k e :: rest => (k, e) :: cache_puts rest
  | _ :: rest => cache_puts rest
  end.

(** The lines the run appends to the query log: the query, the [cache-hit]
    flag and the response's content type and body. *)
Fixpoint query_logs (evs : list Event)
    : list (value * bool * string * value) :=
  match evs with
  | [] => []
  | QueryLog q hit ct b :: rest => (q, hit, ct, b) :: query_logs rest
  | _ :: rest => query_logs rest
  end.

(** [error.statusCode || 500] *)
Definition error_status (e : error) : N :=
  match statusCode e with
  | Some n => if N.eqb n 0 then 500%N else n
  | None => 500%N
  end.

(** The status codes a response can be written with: for any other,
    [res.send] throws a [RangeError] where the handler runs it, and no
    response leaves. *)
Definition writable_status (n : N) : bool := N.leb 100 n && N.leb n 999.

End Server.

(** ** The file system as [fs] and the libraries on top of it see it

    A map from paths to nodes stands for a file system when it is a tree:
    every entry lies in a directory, so every ancestor of an entry is a
    directory. The root, the working directory and the directories above
    it are always there. Symbolic links are not modelled. *)
Module Fs.

Inductive node : Type :=
| File (data : string)
| Directory
| Unreadable.                          (* a file the process may not open *)

Definition errno (c : string) : Js.error :=
  {| Js.name := "Error"; Js.message := c; Js.code := Some c;
     Js.statusCode := None; Js.data := Js.Undefined |}.

(** The name under which the tree holds what [p] names: [p] without its
    trailing separators. *)
Fixpoint chop (p : string) : string :=
  match p with
  | EmptyString => EmptyString
  | String c rest =>
      if Path.only_slashes rest then String c EmptyString
      else String c (chop rest)
  end.

(** Paths made of [..] only: the directories above the working
    directory. *)
Definition climbs (p : string) : bool :=
  forallb (String.eqb "..") (Path.split p).

Definition is_directory (fs : gmap string node) (p : string) : bool :=
  String.eqb p "/" || String.eqb p "." || climbs p
  || match fs !! p with
     | Some Directory => true
     | _ => false
     end.

Definition exists_at (fs : gmap string node) (p : string) : bool :=
  is_directory fs p
  || match fs !! p with
     | Some _ => true
     | None => false
     end.

(** Something that is no directory stands at [a]. *)
Definition not_a_directory (fs : gmap string node) (a : string) : bool :=
  exists_at fs a && negb (is_directory fs a).

(** A file stands where a directory on the way to [p] should be. *)
Definition blocked (fs : gmap string node) (p : string) : bool :=
  existsb (not_a_directory fs) (Path.ancestors (Path.dirname p)).

(** The error for a path at which nothing is found: [ENOTDIR] below a
    file, [ENOENT] when the entry or a directory on the way to it does not
    exist. *)
Definition missing (fs : gmap string node) (p : string) : Js.error :=
  if blocked fs p then errno "ENOTDIR" else errno "ENOENT".

(** Nothing is at [p] and no file stands on the way to it. *)
Definition nothing_at (fs : gmap string node) (p : string) : bool :=
  negb (exists_at fs (chop p)) && negb (blocked fs (chop p)).

(** [fs.readFile(path)]. A trailing separator asks for a directory. *)
Definition readFile (fs : gmap string node) (path : string)
    : Js.result string :=
  let entry := chop path in
  if is_directory fs entry then inl (errno "EISDIR")
  else match fs !! entry with
       | Some (File d) =>
           if Path.ends_with_slash path then inl (errno "ENOTDIR") else inr d
       | Some Unreadable =>
           if Path.ends_with_slash path then inl (errno "ENOTDIR")
           else inl (errno "EACCES")
       | Some Directory => inl (errno "EISDIR")
       | None => inl (missing fs entry)
       end.

(** *** Writing: [fs.mkdir], [mkdirp], [fs.writeFile], [rimraf] *)

(** What the system refuses whatever the shape of the tree: permissions,
    a read-only or a full device, no descriptors left, a failing disk. *)
Inductive refusal : Type :=
| EACCES | EPERM | EROFS | ENOSPC | EDQUOT | EMFILE | EIO.

Definition refusal_code (r : refusal) : string :=
  match r with
  | EACCES => "EACCES"
  | EPERM => "EPERM"
  | EROFS => "EROFS"
  | ENOSPC => "ENOSPC"
  | EDQUOT => "EDQUOT"
  | EMFILE => "EMFILE"
  | EIO => "EIO"
  end.

Definition refused (r : refusal) : Js.error := errno (refusal_code r).

(** The refusals of the system, path by path: making a directory, opening
    a file for writing, writing to the open file (with the number of bytes
    that reach the file before the write fails), and removing a tree. *)
Record limits : Type := {
  on_mkdir : string -> option refusal;
  on_open : string -> option refusal;
  on_write : string -> option (refusal * nat);
  on_remove : string -> option refusal
}.

(** A system that refuses nothing. *)
Definition unlimited : limits :=
  {| on_mkdir := fun _ => None;
     on_open := fun _ => None;
     on_write := fun _ => None;
     on_remove := fun _ => None |}.

(** [fs.mkdir(p)], for [p] without trailing separator, as [path.dirname]
    returns it: [EEXIST] when something is at [p], [ENOENT] when the parent
    is missing, [ENOTDIR] when a file stands on the way. *)
Definition mkdir (lim : limits) (fs : gmap string node) (p : string)
    : gmap string node * Js.result unit :=
  if exists_at fs p then (fs, inl (errno "EEXIST"))
  else if is_directory fs (Path.dirname p) then
    match on_mkdir lim p with
    | Some r => (fs, inl (refused r))
    | None => (<[p := Directory]> fs, inr tt)
    end
  else (fs, inl (missing fs p)).

(** The fall-back of [mkdirP] for an error other than [ENOENT]: fine when
    [p] is a directory already, else the error of [mkdir]. *)
Definition unless_directory (fs : gmap string node) (p : string)
    (er : Js.error) : gmap string node * Js.result unit :=
  if is_directory fs p then (fs, inr tt) else (fs, inl er).

Definition is_ENOENT (e : Js.error) : bool :=
  match Js.code e with
  | Some c => String.eqb c "ENOENT"
  | None => false
  end.

(** [mkdirP] along the lineage of a path: [mkdir]; on [ENOENT] make the
    parent and try again. The second try on [p] finds its parent in place,
    so it does not meet [ENOENT] again. *)
Fixpoint mkdirs (lim : limits) (fs : gmap string node) (lineage : list string)
    : gmap string node * Js.result unit :=
  match lineage with
  | [] => (fs, inr tt)
  | p :: parents =>
      match mkdir lim fs p with
      | (fs1, inr _) => (fs1, inr tt)
      | (fs1, inl er) =>
          if is_ENOENT er then
            match mkdirs lim fs1 parents with
            | (fs2, inl e) => (fs2, inl e)
            | (fs2, inr _) =>
                match mkdir lim fs2 p with
                | (fs3, inr _) => (fs3, inr tt)
                | (fs3, inl er2) => unless_directory fs3 p er2
                end
            end
          else unless_directory fs1 p er
      end
  end.

(** [mkdirp(p)]. Paths are taken as they are: [path.resolve] against the
    working directory is not modelled. *)
Definition mkdirp (lim : limits) (fs : gmap string node) (p : string)
    : gmap string node * Js.result unit :=
  mkdirs lim fs (Path.ancestors p).

(** [fs.writeFile(p, data)]: the file is created or replaced. With a
    trailing separator the open fails. When the write fails after the
    open, the file is left with the bytes that reached it. *)
Definition writeFile (lim : limits) (fs : gmap string node) (p data : string)
    : gmap string node * Js.result unit :=
  if is_directory fs (chop p) then (fs, inl (errno "EISDIR"))
  else if negb (is_directory fs (Path.dirname p))
  then (fs, inl (missing fs (chop p)))
  else if Path.ends_with_slash p then
    (fs, inl (errno (if not_a_directory fs (chop p) then "ENOTDIR"
                     else "EISDIR")))
  else match fs !! p with
       | Some Unreadable => (fs, inl (errno "EACCES"))
       | _ =>
           match on_open lim p with
           | Some r => (fs, inl (refused r))
           | None =>
               match on_write lim p with
               | Some (r, n) =>
                   (<[p := File (substring 0 n data)]> fs, inl (refused r))
               | None => (<[p := File data]> fs, inr tt)
               end
           end
       end.

(** [p] itself or something below it. *)
Definition under (p x : string) : bool :=
  String.eqb x p
  || String.prefix (if String.eqb p "/" then "/" else p +:+ "/") x.

(** [rimraf(p)], for [p] other than the working directory: [p] and
    everything below it is gone; nothing to do is no error. The system
    finds the entry whatever the spelling of [p]. Below a file, [lstat] and
    [unlink] fail with [ENOTDIR]. What is left when the system refuses a
    removal depends on the order the entries are met in, and is not
    modelled: a failure has no file system. The pattern expansion of
    [rimraf] for a path that does not exist as written is left out. *)
Definition rimraf (lim : limits) (fs : gmap string node) (p : string)
    : Js.result (gmap string node) :=
  let entry := chop (Path.normalize p) in
  if blocked fs entry then inl (errno "ENOTDIR")
  else match (if exists_at fs entry then on_remove lim entry else None) with
       | Some r => inl (refused r)
       | None => inr (filter (fun kv => under entry (fst kv) = false) fs)
       end.

(** Nothing at [p], or a directory; nothing at [p], or a file that may be
    replaced. *)
Definition free_or_directory (fs : gmap string node) (p : string) : bool :=
  match fs !! p with
  | None | Some Directory => true
  | _ => false
  end.

Definition free_or_file (fs : gmap string node) (p : string) : bool :=
  match fs !! p with
  | None | Some (File _) => true
  | _ => false
  end.

(** [fs'] is [fs] with directories added at some of the paths [new], where
    [fs] had nothing. *)
Definition only_new_directories (fs fs' : gmap string node)
    (new : list string) : Prop :=
  forall x : string,
    fs' !! x = fs !! x \/
    (fs !! x = None /\ In x new /\ fs' !! x = Some Directory).

End Fs.

(** [s.slice(a, b)] for [0 <= a <= b], on bytes: on the ASCII characters
    that the server's keys start with, bytes and code units are the
    same. *)
Definition slice (a b : nat) (s : string) : string := substring a (b - a) s.

(** U+FFFD as UTF-8: what a surrogate that stands alone is written as
    when a string becomes a path. *)
Definition replacement : string :=
  String (ascii_of_nat 239) (String (ascii_of_nat 191)
    (String (ascii_of_nat 189) "")).

(** The UTF-16 code units of a string held as UTF-8 bytes, each as the
    bytes it is written with when it stands alone: a character of the
    basic plane is one unit, a character beyond it is two surrogates. A
    byte that starts no character counts as a unit. *)
Fixpoint code_units (s : string) : list string :=
  match s with
  | EmptyString => []
  | String c rest =>
      let n := nat_of_ascii c in
      if Nat.ltb n 192 then String c "" :: code_units rest
      else if Nat.ltb n 224 then
        match rest with
        | String c2 rest2 => String c (String c2 "") :: code_units rest2
        | EmptyString => [String c ""]
        end
      else if Nat.ltb n 240 then
        match rest with
        | String c2 (String c3 rest3) =>
            String c (String c2 (String c3 "")) :: code_units rest3
        | _ => String c "" :: code_units rest
        end
      else
        match rest with
        | String c2 (String c3 (String c4 rest4)) =>
            replacement :: replacement :: code_units rest4
        | _ => String c "" :: code_units rest
        end
  end.

(** [s[i]]: the code unit at [i], [undefined] past the end. *)
Definition char_at (i : nat) (s : string) : option string :=
  nth_error (code_units s) i.

Definition is_lower_hex (c : ascii) : bool :=
  let n := nat_of_ascii c in
  (Nat.leb 48 n && Nat.leb n 57) || (Nat.leb 97 n && Nat.leb n 102).

Fixpoint all_lower_hex (s : string) : bool :=
  match s with
  | EmptyString => true
  | String c s' => is_lower_hex c && all_lower_hex s'
  end.

(** The shape of the keys the server computes, as far as the file stores
    look at it: four lowercase hex digits of the digest to start with, and
    no separator anywhere. *)
Definition digest_keyed (key : string) : bool :=
  match key with
  | String a (String b (String c (String d rest))) =>
      is_lower_hex a && is_lower_hex b && is_lower_hex c && is_lower_hex d
      && Path.no_slash rest
  | _ => false
  end.

(** ** The filesystem cache store (second module of part_000) *)
Module FileStore.

Import Js.

(** The methods inherited from [Base], which is not among the sources:
    they are taken as given. *)
Record Base : Type := {
  serialize : Server.CacheEntry -> result string;
  deserialize : string -> result Server.CacheEntry
}.

Record t : Type := {
  base : Base;
  rootDir : string
}.

(** [constructor(compressor, env)]; [path_var] is [env.CACHE_STORE_PATH]. *)
Definition construct (b : Base) (path_var : option string) : t :=
  {| base := b;
     rootDir := match or_else (of_option path_var)
                              (Str "/tmp/sparql-proxy/cache") with
                | Str s => s
                | _ => "/tmp/sparql-proxy/cache"
                end |}.

Definition getPath (store : t) (key : string) : string :=
  Path.join [rootDir store; slice 0 2 key; slice 2 4 key; key].

(** The body of the [try] block of [get]. *)
Definition read_entry (store : t) (fs : gmap string Fs.node) (_path : string)
    : result Server.CacheEntry :=
  match Fs.readFile fs _path with
  | inl e => inl e
  | inr data => deserialize (base store) data
  end.

Definition is_ENOENT (e : error) : bool :=
  match code e with
  | Some c => String.eqb c "ENOENT"
  | None => false
  end.

Definition get (store : t) (fs : gmap string Fs.node) (key : string)
    : result (option Server.CacheEntry) :=
  let _path := getPath store key in
  match read_entry store fs _path with
  | inr entry => inr (Some entry)
  | inl error => if is_ENOENT error then inr None else inl error
  end.

(** [put(key, obj)]: the file system afterwards and how the call ends. *)
Definition put (lim : Fs.limits) (store : t) (fs : gmap string Fs.node)
    (key : string) (obj : Server.CacheEntry)
    : gmap string Fs.node * result unit :=
  let _path := getPath store key in
  match serialize (base store) obj with
  | inl e => (fs, inl e)
  | inr data =>
      match Fs.mkdirp lim fs (Path.dirname _path) with
      | (fs1, inl e) => (fs1, inl e)
      | (fs1, inr _) => Fs.writeFile lim fs1 _path data
      end
  end.

(** [purge()]: the file system afterwards, or the error of [rimraf]. *)
Definition purge (lim : Fs.limits) (store : t) (fs : gmap string Fs.node)
    : result (gmap string Fs.node) :=
  Fs.rimraf lim fs (rootDir store).

(** Deserializing what [serialize] made of [obj] gives [obj] back. *)
Definition round_trips (b : Base) (obj : Server.CacheEntry) : Prop :=
  match serialize b obj with
  | inr data => deserialize b data = inr obj
  | inl _ => True
  end.

(** The two directories an entry lies below. *)
Definition level1 (store : t) (key : string) : string :=
  rootDir store +:+ "/" +:+ slice 0 2 key.

Definition level2 (store : t) (key : string) : string :=
  level1 store key +:+ "/" +:+ slice 2 4 key.

End FileStore.

(** ** The file store of part_001 *)
Module PlainFileStore.

Import Js.

Record t : Type := { rootDir : string }.

Definition construct (path_var : option string) : result t :=
  if truthy (of_option path_var)
  then inr {| rootDir := match path_var with Some s => s | None => "" end |}
  else inl (plain_error "Please set CACHE_STORE_PATH environment variable").

(** [key[0]] or [key[1]] is [undefined] for a key that short, and
    [path.join] then throws. *)
Definition getPath (store : t) (key : string) : result string :=
  Path.join_checked [Some (rootDir store); char_at 0 key; char_at 1 key;
                     Some key].

(** [readFile(...).catch(() => null)] *)
Definition get (store : t) (fs : gmap string Fs.node) (key : string)
    : result (option string) :=
  match getPath store key with
  | inl e => inl e
  | inr _path =>
      match Fs.readFile fs _path with
      | inr data => inr (Some data)
      | inl _ => inr None
      end
  end.

(** [put(key, value)]: [getPath] may throw before anything is written. *)
Definition put (lim : Fs.limits) (store : t) (fs : gmap string Fs.node)
    (key value : string) : gmap string Fs.node * result unit :=
  match getPath store key with
  | inl e => (fs, inl e)
  | inr _path =>
      match Fs.mkdirp lim fs (Path.dirname _path) with
      | (fs1, inl e) => (fs1, inl e)
      | (fs1, inr _) => Fs.writeFile lim fs1 _path value
      end
  end.

End PlainFileStore.


(** ** The chunk executor *)
Module ChunkExecutor.

(** Modelled from the spec: the job module ([./job]), which holds the
    query-splitting executor, is not among the sources. A solution page is
    the [head] and the [bindings] of one JSON result set. *)
Record SolutionPage : Type := {
  head : list string;
  bindings : list (list (string * string))
}.

(** Modelled from the spec: the job module is not among the sources. Of
    the AST of a [SELECT], the executor reads and rewrites [LIMIT] and
    [OFFSET]; everything else, [ORDER BY] included, is carried along. *)
Record Select : Type := {
  pattern : string;
  limit : option nat;
  offset : option nat
}.

(** Modelled from the spec: the job module is not among the sources. The
    backend answers a sub-query with a page or with an error status and
    body. *)
Inductive Reply : Type :=
| Page (p : SolutionPage)
| Failure (status : nat) (body : string).

(** Modelled from the spec: the job module is not among the sources. How
    the executor ends. *)
Inductive Outcome : Type :=
| Merged (contentType : string) (h : option (list string))
         (bs : list (list (string * string)))
| BackendError (status : nat) (body : string)
| Cancelled.

(** Modelled from the spec: the job module is not among the sources.
    [userLimit] is the AST's [LIMIT] if present, else unbounded;
    [effectiveLimit = min(userLimit, maxLimit)]. *)
Definition effectiveLimit (maxLimit : nat) (q : Select) : nat :=
  match limit q with
  | Some userLimit => Nat.min userLimit maxLimit
  | None => maxLimit
  end.

(** Modelled from the spec: the job module is not among the sources.
    Shard size [chunk = min(maxChunkLimit, effectiveLimit)]. *)
Definition chunk (maxChunkLimit maxLimit : nat) (q : Select) : nat :=
  Nat.min maxChunkLimit (effectiveLimit maxLimit q).

(** Modelled from the spec: the job module is not among the sources. *)
Definition userOffset (q : Select) : nat :=
  match offset q with
  | Some o => o
  | None => 0
  end.

(** Modelled from the spec: the job module is not among the sources. The
    AST rewritten with the shard's [LIMIT] and [OFFSET]. *)
Definition rewrite (q : Select) (shard_limit shard_offset : nat) : Select :=
  {| pattern := pattern q;
     limit := Some shard_limit;
     offset := Some shard_offset |}.

(** Modelled from the spec: the job module is not among the sources.
    Shard issuance, one shard per unit of [fuel]: while the rows collected
    are fewer than the effective limit, check the cancellation signal,
    ask for [min(chunk, effectiveLimit - collected)] rows at the current
    offset, fail on a backend error, and stop when fewer rows than asked
    for come back. [pages] holds the pages so far, the latest first;
    [None] when the fuel runs out. *)
Fixpoint issue (fuel : nat) (backend : Select -> Reply)
    (cancelled : nat -> bool) (q : Select) (eff chunk_size : nat)
    (index cur_offset collected : nat) (pages : list SolutionPage)
    : option (Outcome + list SolutionPage) :=
  match fuel with
  | 0 => None
  | S fuel' =>
      if Nat.leb eff collected then Some (inr (rev pages))
      else if cancelled index then Some (inl Cancelled)
      else
        let requested := Nat.min chunk_size (eff - collected) in
        match backend (rewrite q requested cur_offset) with
        | Failure status body => Some (inl (BackendError status body))
        | Page p =>
            let returned := length (bindings p) in
            if Nat.ltb returned requested
            then Some (inr (rev (p :: pages)))
            else issue fuel' backend cancelled q eff chunk_size
                   (S index) (cur_offset + chunk_size)
                   (collected + returned) (p :: pages)
        end
  end.

(** Modelled from the spec: the job module is not among the sources.
    Merge: the first shard's head, all shards' bindings in shard order. *)
Definition merge (pages : list SolutionPage) : Outcome :=
  Merged "application/sparql-results+json"
         (match pages with
          | first :: _ => Some (head first)
          | [] => None
          end)
         (concat (map bindings pages)).

(** Modelled from the spec: the job module is not among the sources. The
    executor for a [SELECT] when query splitting is enabled. *)
Definition execute (fuel : nat) (backend : Select -> Reply)
    (cancelled : nat -> bool) (maxChunkLimit maxLimit : nat) (q : Select)
    : option Outcome :=
  match issue fuel backend cancelled q (effectiveLimit maxLimit q)
              (chunk maxChunkLimit maxLimit q) 0 (userOffset q) 0 [] with
  | None => None
  | Some (inl failure) => Some failure
  | Some (inr pages) => Some (merge pages)
  end.

(** A backend that holds the rows [rows] for the query's pattern and
    applies [LIMIT] and [OFFSET] to them; [head_of] is the head it reports
    for a sub-query. *)
Definition table_backend (head_of : Select -> list string)
    (rows : list (list (string * string))) (q : Select) : Reply :=
  let from := drop (userOffset q) rows in
  Page {| head := head_of q;
          bindings := match limit q with
                      | Some l => take l from
                      | None => from
                      end |}.

Definition never (_ : nat) : bool := false.

End ChunkExecutor.

(** ** The server with the filesystem store of part_000 as its cache *)
Module Deployment.

Import Js Server.

(** The collaborators of one request: the store as it finds the file
    system, and the queue. *)
Definition file_cache (lim : Fs.limits) (store : FileStore.t)
    (fs : gmap string Fs.node) (queue : Job -> value -> result CacheEntry)
    : Env :=
  {| cache_get := FileStore.get store fs;
     cache_put := fun key entry => snd (FileStore.put lim store fs key entry);
     queue_enqueue := queue |}.

(** The file system after the writes of a run. *)
Fixpoint fs_after (lim : Fs.limits) (store : FileStore.t)
    (fs : gmap string Fs.node) (evs : list Event) : gmap string Fs.node :=
  match evs with
  | [] => fs
  | CachePut key entry :: rest =>
      fs_after lim store (fst (FileStore.put lim store fs key entry)) rest
  | _ :: rest => fs_after lim store fs rest
  end.

(** One request against the store: the run and the file system it
    leaves. *)
Definition serve (lim : Fs.limits) (cfg : Config) (lib : Lib)
    (store : FileStore.t) (queue : Job -> value -> result CacheEntry)
    (fs : gmap string Fs.node) (req : Request) (res0 : Response)
    : Run * gmap string Fs.node :=
  let run := sparql_handler cfg lib (file_cache lim store fs queue) req res0 in
  (run, fs_after lim store fs (events run)).

End Deployment.

(** ** Sample libraries, collaborators and requests *)
Module Sample.

Import Js Server.

(** The characters an IRI reference [<...>] may hold. *)
Definition iri_char (c : ascii) : bool :=
  Nat.ltb 32 (nat_of_ascii c)
  && negb (existsb (Ascii.eqb c)
             ["<"; ">"; ascii_of_nat 34; "{"; "}"; "|"; "^"; "`";
              ascii_of_nat 92]%char).

(** Whether the text holds an IRI reference without a scheme, such as
    [<a>]. [inside] is [Some colon] between [<] and [>], where [colon]
    tells whether a colon has been met. *)
Fixpoint relative_iri_from (inside : option bool) (s : string) : bool :=
  match s with
  | EmptyString => false
  | String c s' =>
      if Ascii.eqb c "<" then relative_iri_from (Some false) s'
      else match inside with
           | None => relative_iri_from None s'
           | Some colon =>
               if Ascii.eqb c ">"
               then negb colon || relative_iri_from None s'
               else if iri_char c
               then relative_iri_from (Some (colon || Ascii.eqb c ":")) s'
               else relative_iri_from None s'
           end
  end.

Definition relative_iri (s : string) : bool := relative_iri_from None s.

(** A stand-in for the libraries: no preamble is split off; the parser
    (no base IRI is set) throws on a relative IRI and on a text starting
    with [SELEKT], takes a text starting with [INSERT] for an update and
    any other for a query; the generator returns the text. *)
Definition lib : Lib :=
  {| Ast := string * string;
     splitPreamble := fun v =>
       match v with
       | Str s => inr ("", s)
       | _ => inl (TypeError "query is not a string")
       end;
     parse := fun s =>
       if relative_iri s
       then inl (plain_error "Cannot resolve relative IRI because no base IRI was set.")
       else if String.prefix "SELEKT" s
       then inl (plain_error "Parse error on line 1")
       else if String.prefix "INSERT" s then inr ("update", s)
       else inr ("query", s);
     ast_type := fst;
     stringify := snd |}.

Definition env (g : result (option CacheEntry)) (p : result unit)
    (e : result CacheEntry) : Env :=
  {| cache_get := fun _ => g;
     cache_put := fun _ _ => p;
     queue_enqueue := fun _ _ => e |}.

Definition select_one : string := "SELECT ?s WHERE { ?s ?p ?o } LIMIT 1".

(** An update that parses: its IRIs are absolute. *)
Definition insert_one : string :=
  "INSERT DATA { <http://example.org/a> <http://example.org/b> <http://example.org/c> }".

Definition get_request (q : string) (accept : option string) : Request :=
  {| method := "GET";
     query := [("query", Str q)];
     is_sparql_query := false;
     body := BodyFields [];
     header_accept := accept;
     ip := "127.0.0.1" |}.

Definition post_request (q : string) : Request :=
  {| method := "POST";
     query := [];
     is_sparql_query := true;
     body := BodyText q;
     header_accept := None;
     ip := "127.0.0.1" |}.

Definition config : Config := default_config "http://localhost:8890/sparql".

Definition splitting_config : Config :=
  {| port := port config; backend := backend config;
     maxConcurrency := maxConcurrency config; maxWaiting := maxWaiting config;
     adminUser := adminUser config; adminPassword := adminPassword config;
     cacheStore := cacheStore config; compressor := compressor config;
     jobTimeout := jobTimeout config;
     durationToKeepOldJobs := durationToKeepOldJobs config;
     enableQuerySplitting := true;
     maxChunkLimit := maxChunkLimit config; maxLimit := maxLimit config;
     trustProxy := trustProxy config; queryLogPath := queryLogPath config |}.

Definition json_entry : CacheEntry :=
  {| contentType := "application/sparql-results+json";
     entry_body := Str "{}" |}.

Definition disk_full : error := Fs.errno "ENOSPC".

(** A stand-in for the methods of [Base]: the stored bytes are the body,
    the content type is fixed, and empty data does not deserialize. *)
Definition base : FileStore.Base :=
  {| FileStore.serialize := fun e =>
       match entry_body e with
       | Str s => inr s
       | _ => inl (TypeError "body is not a string")
       end;
     FileStore.deserialize := fun data =>
       if String.eqb data "" then inl (plain_error "Unexpected end of input")
       else inr {| contentType := "application/sparql-results+json";
                   entry_body := Str data |} |}.

(** The [n]-th solution of a one-variable result set, for [n] below ten,
    and the first [n] of them. *)
Definition digit (n : nat) : string := String (ascii_of_nat (48 + n)) "".

Definition row (n : nat) : list (string * string) := [("s", digit n)].

Definition rows (n : nat) : list (list (string * string)) :=
  map row (seq 0 n).

(** A backend over [table] that writes into every binding the [LIMIT] and
    the [OFFSET] of the sub-query that delivered it. *)
Definition traced_backend (table : list (list (string * string)))
    (q : ChunkExecutor.Select) : ChunkExecutor.Reply :=
  match ChunkExecutor.table_backend (fun _ => ["s"]) table q with
  | ChunkExecutor.Page p =>
      ChunkExecutor.Page
        {| ChunkExecutor.head := ChunkExecutor.head p;
           ChunkExecutor.bindings :=
             map (fun b : list (string * string) =>
                    (b ++ [("LIMIT", match ChunkExecutor.limit q with
                                     | Some l => digit l
                                     | None => ""
                                     end);
                           ("OFFSET", digit (ChunkExecutor.userOffset q))])%list)
                 (ChunkExecutor.bindings p) |}
  | failure => failure
  end.

Definition select (l o : option nat) : ChunkExecutor.Select :=
  {| ChunkExecutor.pattern := "?s { ?s ?p ?o } ORDER BY ?s";
     ChunkExecutor.limit := l;
     ChunkExecutor.offset := o |}.

(** A request with another method, and a form post that carries a token
    beside the query. *)
Definition delete_request : Request :=
  {| method := "DELETE";
     query := [];
     is_sparql_query := false;
     body := BodyFields [];
     header_accept := None;
     ip := "127.0.0.1" |}.

Definition form_request (q token : string) : Request :=
  {| method := "POST";
     query := [];
     is_sparql_query := false;
     body := BodyFields [("query", Str q); ("token", Str token)];
     header_accept := None;
     ip := "127.0.0.1" |}.

Definition logging_config (path : string) : Config :=
  {| port := port config; backend := backend config;
     maxConcurrency := maxConcurrency config; maxWaiting := maxWaiting config;
     adminUser := adminUser config; adminPassword := adminPassword config;
     cacheStore := cacheStore config; compressor := compressor config;
     jobTimeout := jobTimeout config;
     durationToKeepOldJobs := durationToKeepOldJobs config;
     enableQuerySplitting := enableQuerySplitting config;
     maxChunkLimit := maxChunkLimit config; maxLimit := maxLimit config;
     trustProxy := trustProxy config; queryLogPath := Some path |}.

(** What the queue rejects with when it is full. *)
Definition queue_full : error :=
  {| name := "Error"; message := "Too many waiting jobs"; code := None;
     statusCode := Some 503%N; data := Str "Too many waiting jobs" |}.

End Sample.

(** * Facts about strings *)
Section Strings.

Lemma string_app_cons (x : ascii) (a b : string) :
  String x a +:+ b = String x (a +:+ b).
Proof. reflexivity. Qed.

Lemma string_app_nil_l (a : string) : "" +:+ a = a.
Proof. reflexivity. Qed.

Lemma string_app_assoc (a b c : string) : (a +:+ b) +:+ c = a +:+ b +:+ c.
Proof.
  induction a as [|x a IH]; [reflexivity |].
  rewrite !string_app_cons. f_equal. exact IH.
Qed.

Lemma substring_0_0 (s : string) : substring 0 0 s = "".
Proof. now destruct s. Qed.

End Strings.

(** * Properties of the [/sparql] handler *)
Section Handler.

Import Js Server.

Variables (cfg : Config) (lib : Lib) (env : Env).
Variables (req : Request) (res0 : Response).

(** Past the gates the handler is the cache lookup on the key computed
    from the canonical text and the accept value. *)
Lemma handler_accepted q preamble compatibleQuery ast :
  accepted lib req q preamble compatibleQuery ast ->
  sparql_handler cfg lib env req res0 =
  lookup_then_run cfg env req q (accept_of cfg req)
    (cacheKey_of cfg
       (digest_of (normalizedQuery_of lib preamble ast) (accept_of cfg req)))
    (start res0).
Proof.
  intros (Hd & Ht & Hs & Hp & Hty). unfold sparql_handler.
  rewrite Hd, Ht. simpl. rewrite Hs, Hp, Hty. reflexivity.
Qed.

(** The three updates of the hash object hash the concatenation. *)
Lemma digest_of_concat (normalizedQuery accept : string) :
  digest_of normalizedQuery accept =
  Crypto.md5_hex (normalizedQuery +:+ NUL +:+ accept).
Proof.
  unfold digest_of, Crypto.digest_hex, Crypto.update, Crypto.createHash. simpl.
  now rewrite string_app_nil_l, string_app_assoc.
Qed.

Lemma accept_of_cases :
  accept_of cfg req =
  if enableQuerySplitting cfg then default_accept
  else match header_accept req with
       | Some h => if String.eqb h "" then default_accept else h
       | None => default_accept
       end.
Proof.
  unfold accept_of, or_else.
  destruct (enableQuerySplitting cfg); [reflexivity |].
  destruct (header_accept req) as [h|]; [| reflexivity].
  simpl. now destruct (String.eqb h "").
Qed.

End Handler.

(** Case analysis on everything a run of the lookup can meet. *)
Ltac run_cases cfg env :=
  unfold Server.lookup_then_run, Server.run_job, Server.respond_hit, Server.log;
  repeat match goal with
         | |- context [Server.cache_get env ?k] =>
             destruct (Server.cache_get env k) as [? | [? |]]
         | |- context [Server.queue_enqueue env ?j ?t] =>
             destruct (Server.queue_enqueue env j t)
         | |- context [Server.cache_put env ?k ?e] =>
             destruct (Server.cache_put env k e)
         | |- context [Js.truthy (Js.of_option (Server.queryLogPath cfg))] =>
             destruct (Js.truthy (Js.of_option (Server.queryLogPath cfg)))
         end.

Section HandlerClaims.

Import Js Server.

Variables (cfg : Config) (lib : Lib) (env : Env).
Variables (req : Request) (res0 : Response).

(** The lookup comes first, and the write-behind takes the key of the
    lookup. *)
Lemma lookup_keys q accept key :
  let run := lookup_then_run cfg env req q accept key (start res0) in
  (exists rest, events run = CacheGet key :: rest) /\
  Forall (fun k => k = key) (cache_keys (events run)).
Proof.
  intros run. subst run. split.
  - run_cases cfg env; simpl; eauto.
  - run_cases cfg env; simpl; repeat constructor.
Qed.

(** The three precondition failures: a missing query and a parse failure
    are answered with an object, a query of another type with a string. *)
Lemma precondition_failures q :
  dispatch req = WithQuery q ->
  let run := sparql_handler cfg lib env req res0 in
  (truthy q = false ->
   status (res run) = 400%N /\
   sent (res run) = Some (Obj [("message", Str "Query is required")])) /\
  (forall preamble compatibleQuery ex,
     truthy q = true ->
     splitPreamble lib q = inr (preamble, compatibleQuery) ->
     parse lib compatibleQuery = inl ex ->
     status (res run) = 400%N /\
     sent (res run) = Some (Obj [("message", Str "Query parse failed");
                                 ("data", Str (message ex))])) /\
  (forall preamble compatibleQuery ast,
     truthy q = true ->
     splitPreamble lib q = inr (preamble, compatibleQuery) ->
     parse lib compatibleQuery = inr ast ->
     ast_type lib ast <> "query" ->
     status (res run) = 400%N /\
     sent (res run) = Some (Str "Query type not allowed")).
Proof.
  intros Hd run. subst run. unfold sparql_handler. rewrite Hd.
  split; [| split].
  - intros ->. split; reflexivity.
  - intros preamble compatibleQuery ex -> -> ->. split; reflexivity.
  - intros preamble compatibleQuery ast -> -> -> Hty.
    apply String.eqb_neq in Hty. rewrite Hty. split; reflexivity.
Qed.

(** C1: for a request whose query parses and has AST type ['query'], the
    key handed to the cache store is the MD5 hex digest of the preamble
    followed by the re-serialized AST, then one NUL byte, then the accept
    media type, followed by ["."] and the configured compressor id. The
    lookup is the first thing the run does, and every later use of the
    cache takes the same key. *)
Theorem cache_key_fingerprint q preamble compatibleQuery ast :
  accepted lib req q preamble compatibleQuery ast ->
  let key :=
    Crypto.md5_hex ((preamble +:+ stringify lib ast) +:+ NUL
                    +:+ accept_of cfg req)
    +:+ "." +:+ compressor cfg in
  let run := sparql_handler cfg lib env req res0 in
  (exists rest, events run = CacheGet key :: rest) /\
  Forall (fun k => k = key) (cache_keys (events run)).
Proof.
  intros Hacc key run. subst run.
  rewrite (handler_accepted _ _ _ _ _ _ _ _ _ Hacc).
  unfold cacheKey_of, normalizedQuery_of. rewrite digest_of_concat. fold key.
  apply lookup_keys.
Qed.

(** C2, as amended: the accept value that enters the fingerprint and is
    attached to the job is the default [application/sparql-results+json]
    whenever query splitting is enabled; with splitting disabled it is the
    request's [Accept] header when that is present and not empty, and the
    default otherwise. *)
Theorem accept_value q preamble compatibleQuery ast :
  accepted lib req q preamble compatibleQuery ast ->
  let accept :=
    if enableQuerySplitting cfg then default_accept
    else match header_accept req with
         | Some h => if String.eqb h "" then default_accept else h
         | None => default_accept
         end in
  let run := sparql_handler cfg lib env req res0 in
  accept_of cfg req = accept /\
  Forall (fun k => k = Crypto.md5_hex ((preamble +:+ stringify lib ast)
                                    +:+ NUL +:+ accept)
                       +:+ "." +:+ compressor cfg)
         (cache_keys (events run)) /\
  Forall (fun job => job_accept job = accept) (enqueued (events run)).
Proof.
  intros Hacc accept run. subst run.
  assert (Ha : accept_of cfg req = accept) by apply accept_of_cases.
  split; [exact Ha |]. split.
  - rewrite (handler_accepted _ _ _ _ _ _ _ _ _ Hacc), Ha.
    unfold cacheKey_of, normalizedQuery_of. rewrite digest_of_concat.
    apply lookup_keys.
  - rewrite (handler_accepted _ _ _ _ _ _ _ _ _ Hacc), Ha.
    run_cases cfg env; simpl; repeat constructor.
Qed.

(** C4: when the lookup hits, the response carries the stored entry's
    content type, the stored body and [X-Cache: hit], nothing is
    enqueued; and a run that misses and gets from the queue the result
    the entry was stored from answers with the same status and the same
    body, its headers differing from the hit's in [X-Cache] only. That
    run hands the result to [cache.put] under the key of the lookup. *)
Theorem cache_hit_response q preamble compatibleQuery ast
    (cached : CacheEntry) (env_miss : Env) :
  accepted lib req q preamble compatibleQuery ast ->
  let key := cacheKey_of cfg (digest_of
               (normalizedQuery_of lib preamble ast) (accept_of cfg req)) in
  cache_get env key = inr (Some cached) ->
  cache_get env_miss key = inr None ->
  queue_enqueue env_miss (make_job cfg req q (accept_of cfg req))
                (assoc "token" (query req)) = inr cached ->
  let hit := sparql_handler cfg lib env req res0 in
  let miss := sparql_handler cfg lib env_miss req res0 in
  res hit = {| status := status res0;
               headers := <["X-Cache" := "hit"]>
                            (<["Content-Type" := contentType cached]>
                               (headers res0));
               sent := Some (entry_body cached) |} /\
  responses (events hit) = [res hit] /\
  enqueued (events hit) = [] /\
  status (res hit) = status (res miss) /\
  sent (res hit) = sent (res miss) /\
  headers (res hit) = <["X-Cache" := "hit"]> (headers (res miss)) /\
  headers (res miss) !! "Content-Type" = Some (contentType cached) /\
  In (CachePut key cached) (events miss).
Proof.
  intros Hacc key Hhit Hmiss Hq hit miss. subst hit miss.
  rewrite !(handler_accepted _ _ _ _ _ _ _ _ _ Hacc). fold key.
  unfold lookup_then_run. rewrite Hhit, Hmiss.
  unfold run_job. rewrite Hq.
  unfold respond_hit, log.
  destruct (truthy (of_option (queryLogPath cfg)));
    destruct (cache_put env_miss key cached); simpl;
    rewrite lookup_insert_eq; repeat split; try reflexivity; tauto.
Qed.

(** C5: an error thrown by [cache.get] makes the request proceed as a
    miss: the job is enqueued, nothing escapes the handler, and the
    response is the one of a run whose lookup found nothing. Whatever
    [cache.put] does, a throw included, nothing escapes the handler and the
    response stays the one that was sent. *)
Theorem cache_errors_swallowed q preamble compatibleQuery ast
    (e : error) (put : string -> CacheEntry -> result unit) :
  accepted lib req q preamble compatibleQuery ast ->
  let failing_get :=
    sparql_handler cfg lib (with_cache_get env (fun _ => inl e)) req res0 in
  let as_miss :=
    sparql_handler cfg lib (with_cache_get env (fun _ => inr None)) req res0 in
  let run := sparql_handler cfg lib env req res0 in
  let other_put := sparql_handler cfg lib (with_cache_put env put) req res0 in
  (enqueued (events failing_get) = [make_job cfg req q (accept_of cfg req)] /\
   thrown failing_get = None /\
   res failing_get = res as_miss /\
   responses (events failing_get) = responses (events as_miss)) /\
  (thrown other_put = None /\
   res other_put = res run /\
   responses (events other_put) = responses (events run) /\
   responses (events run) = [res run]).
Proof.
  intros Hacc failing_get as_miss run other_put.
  subst failing_get as_miss run other_put.
  rewrite !(handler_accepted _ _ _ _ _ _ _ _ _ Hacc).
  unfold lookup_then_run, run_job, respond_hit, log. simpl.
  split.
  - destruct (queue_enqueue env _ _);
      destruct (truthy (of_option (queryLogPath cfg)));
      repeat match goal with
             | |- context [cache_put env ?k ?c] => destruct (cache_put env k c)
             end; simpl; repeat split; reflexivity.
  - destruct (cache_get env _) as [? | [? |]];
      try destruct (queue_enqueue env _ _);
      destruct (truthy (of_option (queryLogPath cfg)));
      repeat match goal with
             | |- context [cache_put env ?k ?c] => destruct (cache_put env k c)
             | |- context [put ?k ?c] => destruct (put k c)
             end; simpl; repeat split; reflexivity.
Qed.

(** C9: on a cache miss the job handed to the queue carries the raw query
    as it was taken from the request. The job is built from the
    configuration, the request and the accept value only: a run with other
    libraries, hence another canonical text and another cache key,
    enqueues the same job. *)
Theorem job_carries_raw_query q preamble compatibleQuery ast
    (lib' : Lib) preamble' compatibleQuery' (ast' : Ast lib') :
  accepted lib req q preamble compatibleQuery ast ->
  accepted lib' req q preamble' compatibleQuery' ast' ->
  is_hit (cache_get env (cacheKey_of cfg (digest_of
            (normalizedQuery_of lib preamble ast) (accept_of cfg req))))
    = false ->
  is_hit (cache_get env (cacheKey_of cfg (digest_of
            (normalizedQuery_of lib' preamble' ast') (accept_of cfg req))))
    = false ->
  let run := sparql_handler cfg lib env req res0 in
  let run' := sparql_handler cfg lib' env req res0 in
  dispatch req = WithQuery q /\
  (exists job, enqueued (events run) = [job] /\ rawQuery job = q) /\
  enqueued (events run') = enqueued (events run).
Proof.
  intros Hacc Hacc' Hmiss Hmiss' run run'. subst run run'.
  split; [exact (proj1 Hacc) |].
  rewrite (handler_accepted _ _ _ _ _ _ _ _ _ Hacc).
  rewrite (handler_accepted _ _ _ _ _ _ _ _ _ Hacc').
  unfold lookup_then_run.
  destruct (cache_get env (cacheKey_of cfg
              (digest_of (normalizedQuery_of lib _ _) _)))
    as [? | [? |]]; try discriminate Hmiss;
    destruct (cache_get env (cacheKey_of cfg
                (digest_of (normalizedQuery_of lib' _ _) _)))
      as [? | [? |]]; try discriminate Hmiss';
    unfold run_job, log;
    destruct (queue_enqueue env _ _);
    destruct (truthy (of_option (queryLogPath cfg)));
    repeat match goal with
           | |- context [cache_put env ?k ?c] => destruct (cache_put env k c)
           end; simpl; split; eauto.
Qed.

(** C8: the gate on the query type answers 400 with a plain string, not
    with an object: for every splitter, parser and request, a query that
    parses to an AST whose type is not ['query'] is answered with
    ['Query type not allowed'] as the body, and the run does nothing else
    besides logging the type on the console. The two gates before it send
    objects with a [message] ([precondition_failures]). *)
Theorem update_rejected_with_plain_text q preamble compatibleQuery ast :
  dispatch req = WithQuery q ->
  truthy q = true ->
  splitPreamble lib q = inr (preamble, compatibleQuery) ->
  parse lib compatibleQuery = inr ast ->
  ast_type lib ast <> "query" ->
  let run := sparql_handler cfg lib env req res0 in
  status (res run) = 400%N /\
  sent (res run) = Some (Str "Query type not allowed") /\
  (forall fields, sent (res run) <> Some (Obj fields)) /\
  events run = [Console ("Query type not allowed: " +:+ ast_type lib ast);
                Responded (res run)].
Proof.
  intros Hd Hq Hs Hp Hty run. subst run.
  unfold sparql_handler. rewrite Hd, Hq, Hs, Hp.
  apply String.eqb_neq in Hty. rewrite Hty. simpl.
  repeat split. intros fields. discriminate.
Qed.

End HandlerClaims.

Section HandlerExamples.

Import Js Server.

(** C1 at a [GET] with an [Accept] header, splitting disabled. *)
Lemma cache_key_fingerprint_witness :
  Forall (fun k => k = "969d668a19f6637e3f30286fa5ae65b2.raw")
    (cache_keys (events (sparql_handler Sample.config Sample.lib
       (Sample.env (inr None) (inr tt) (inr Sample.json_entry))
       (Sample.get_request Sample.select_one (Some "text/csv"))
       fresh_response))).
Proof.
  refine (proj2 (cache_key_fingerprint Sample.config Sample.lib
                   (Sample.env (inr None) (inr tt) (inr Sample.json_entry))
                   (Sample.get_request Sample.select_one (Some "text/csv"))
                   fresh_response
                   (Str Sample.select_one) "" Sample.select_one
                   ("query", Sample.select_one) _)).
  repeat split; reflexivity.
Defined.

(** C2 as stated fails: with query splitting enabled, a request whose
    [Accept] header asks for XML is fingerprinted and enqueued with the
    JSON default. *)
Lemma accept_header_dropped_when_splitting :
  let req := Sample.get_request Sample.select_one
               (Some "application/sparql-results+xml") in
  let run := sparql_handler Sample.splitting_config Sample.lib
               (Sample.env (inr None) (inr tt) (inr Sample.json_entry))
               req fresh_response in
  header_accept req = Some "application/sparql-results+xml" /\
  map job_accept (enqueued (events run)) = ["application/sparql-results+json"] /\
  cache_keys (events run) =
    ["5edc50626e97cc69d6014350808d135c.raw";
     "5edc50626e97cc69d6014350808d135c.raw"] /\
  ~ Forall (fun job => Some (job_accept job) = header_accept req)
           (enqueued (events run)).
Proof.
  repeat split; try reflexivity.
  intros H. vm_compute in H. inversion H as [| ? ? Heq]. discriminate Heq.
Qed.

Lemma accept_value_witness :
  Forall (fun job => job_accept job = "text/csv")
    (enqueued (events (sparql_handler Sample.config Sample.lib
       (Sample.env (inr None) (inr tt) (inr Sample.json_entry))
       (Sample.get_request Sample.select_one (Some "text/csv"))
       fresh_response))).
Proof.
  refine (proj2 (proj2 (accept_value Sample.config Sample.lib
                   (Sample.env (inr None) (inr tt) (inr Sample.json_entry))
                   (Sample.get_request Sample.select_one (Some "text/csv"))
                   fresh_response
                   (Str Sample.select_one) "" Sample.select_one
                   ("query", Sample.select_one) _))).
  repeat split; reflexivity.
Defined.

(** The second of two identical requests, the first having stored the
    queue's result. *)
Lemma cache_hit_response_witness :
  let req := Sample.get_request Sample.select_one None in
  let hit := sparql_handler Sample.config Sample.lib
               (Sample.env (inr (Some Sample.json_entry)) (inr tt)
                           (inl (plain_error "unused")))
               req fresh_response in
  let miss := sparql_handler Sample.config Sample.lib
                (Sample.env (inr None) (inr tt) (inr Sample.json_entry))
                req fresh_response in
  headers (res hit) = <["X-Cache" := "hit"]> (headers (res miss)) /\
  sent (res hit) = sent (res miss).
Proof.
  destruct (cache_hit_response Sample.config Sample.lib
              (Sample.env (inr (Some Sample.json_entry)) (inr tt)
                          (inl (plain_error "unused")))
              (Sample.get_request Sample.select_one None) fresh_response
              (Str Sample.select_one) "" Sample.select_one
              ("query", Sample.select_one) Sample.json_entry
              (Sample.env (inr None) (inr tt) (inr Sample.json_entry)))
    as (_ & _ & _ & _ & Hsent & Hheaders & _ & _).
  - repeat split; reflexivity.
  - reflexivity.
  - reflexivity.
  - reflexivity.
  - split; [exact Hheaders | exact Hsent].
Defined.

(** A lookup that fails and a write-behind that fails, around a queue
    that answers. *)
Lemma cache_errors_swallowed_witness :
  let answering := Sample.env (inr None) (inr tt) (inr Sample.json_entry) in
  let req := Sample.get_request Sample.select_one None in
  let failing_get :=
    sparql_handler Sample.config Sample.lib
      (with_cache_get answering (fun _ => inl (Fs.errno "EACCES")))
      req fresh_response in
  let failing_put :=
    sparql_handler Sample.config Sample.lib
      (with_cache_put answering (fun _ _ => inl Sample.disk_full))
      req fresh_response in
  map rawQuery (enqueued (events failing_get)) = [Str Sample.select_one] /\
  res failing_put = res (sparql_handler Sample.config Sample.lib answering
                           req fresh_response).
Proof.
  destruct (cache_errors_swallowed Sample.config Sample.lib
              (Sample.env (inr None) (inr tt) (inr Sample.json_entry))
              (Sample.get_request Sample.select_one None) fresh_response
              (Str Sample.select_one) "" Sample.select_one
              ("query", Sample.select_one) (Fs.errno "EACCES")
              (fun _ _ => inl Sample.disk_full))
    as ((Hjob & _) & (_ & Hres & _)).
  - repeat split; reflexivity.
  - split; [exact (f_equal (map rawQuery) Hjob) | exact Hres].
Defined.

(** C8 at a direct [POST] of an update that parses. *)
Lemma update_rejected_with_plain_text_witness :
  let run := sparql_handler Sample.config Sample.lib
               (Sample.env (inr None) (inr tt) (inr Sample.json_entry))
               (Sample.post_request Sample.insert_one) fresh_response in
  status (res run) = 400%N /\
  sent (res run) = Some (Str "Query type not allowed") /\
  (forall fields, sent (res run) <> Some (Obj fields)) /\
  events run = [Console "Query type not allowed: update";
                Responded (res run)].
Proof.
  apply (update_rejected_with_plain_text Sample.config Sample.lib
           (Sample.env (inr None) (inr tt) (inr Sample.json_entry))
           (Sample.post_request Sample.insert_one) fresh_response
           (Str Sample.insert_one) "" Sample.insert_one
           ("update", Sample.insert_one));
    first [reflexivity | discriminate].
Defined.

(** The update of the spec's scenario has relative IRIs: with no base IRI
    the parser throws on it, and the answer is the object of the parse
    failure. *)
Example relative_iris_do_not_parse :
  sent (res (sparql_handler Sample.config Sample.lib
               (Sample.env (inr None) (inr tt) (inr Sample.json_entry))
               (Sample.post_request "INSERT DATA { <a> <b> <c> }")
               fresh_response)) =
  Some (Obj [("message", Str "Query parse failed");
             ("data", Str "Cannot resolve relative IRI because no base IRI was set.")]).
Proof. reflexivity. Qed.

Lemma job_carries_raw_query_witness :
  exists job,
    enqueued (events (sparql_handler Sample.config Sample.lib
       (Sample.env (inr None) (inr tt) (inr Sample.json_entry))
       (Sample.get_request Sample.select_one None) fresh_response)) = [job] /\
    rawQuery job = Str Sample.select_one.
Proof.
  refine (proj1 (proj2 (job_carries_raw_query Sample.config Sample.lib
                   (Sample.env (inr None) (inr tt) (inr Sample.json_entry))
                   (Sample.get_request Sample.select_one None) fresh_response
                   (Str Sample.select_one) "" Sample.select_one
                   ("query", Sample.select_one)
                   Sample.lib "" Sample.select_one
                   ("query", Sample.select_one) _ _ _ _)));
    first [reflexivity | repeat split; reflexivity].
Defined.

End HandlerExamples.

(** * The live channel *)
Section LiveChannel.

Import Js Server.

(** C10: a handshake without a [Cookie] header makes the middleware throw
    the [TypeError] of [cookie.parse]; it does not end in the
    ['Authentication error'] refusal, which is how every handshake with a
    [Cookie] header ends unless it is accepted. *)
Theorem missing_cookie_header_throws (cfg : Config) (socket_id : string) :
  io_auth cfg socket_id None =
    ([], Crashed (TypeError "argument str must be a string")) /\
  snd (io_auth cfg socket_id None)
    <> Refused (plain_error "Authentication error") /\
  forall header : string,
    snd (io_auth cfg socket_id (Some header)) =
    match Cookie.parse (Some header) with
    | inr cookies =>
        if bool_decide (Cookie.lookup cookieKey cookies = Some (secret cfg))
        then Accepted
        else Refused (plain_error "Authentication error")
    | inl e => Crashed e
    end.
Proof.
  split; [reflexivity |]. split; [discriminate |].
  intros header. unfold io_auth. simpl.
  destruct (Cookie.lookup cookieKey _) as [s|] eqn:Hl.
  - destruct (String.eqb_spec s (secret cfg)) as [-> | Hne].
    + now rewrite bool_decide_eq_true_2.
    + rewrite bool_decide_eq_false_2; [reflexivity | congruence].
  - now rewrite bool_decide_eq_false_2.
Qed.

End LiveChannel.

(** * Properties of [path.join] *)
Section PathFacts.

Import Path.

Lemma split_nonempty (s : string) : split s <> [].
Proof.
  destruct s as [|c s]; simpl; [discriminate |].
  destruct (Ascii.eqb c "/"); [discriminate |].
  destruct (split s); discriminate.
Qed.

Lemma split_app (a b : string) :
  split (a +:+ String "/" b) = (split a ++ split b)%list.
Proof.
  induction a as [|c a IH]; [reflexivity |].
  rewrite string_app_cons. simpl.
  destruct (Ascii.eqb c "/").
  - now rewrite IH.
  - rewrite IH. destruct (split a) as [|seg rest] eqn:Hs; [| reflexivity].
    now destruct (split_nonempty a).
Qed.

Lemma split_no_slash (s : string) : no_slash s = true -> split s = [s].
Proof.
  induction s as [|c s IH]; simpl; [reflexivity |].
  intros H. apply andb_true_iff in H as [Hc Hs].
  destruct (Ascii.eqb c "/"); [discriminate |].
  now rewrite (IH Hs).
Qed.

Lemma plain_segment_spec (s : string) :
  plain_segment s = true ->
  s <> "" /\ s <> "." /\ s <> ".." /\ no_slash s = true.
Proof.
  unfold plain_segment. intros H.
  repeat (apply andb_true_iff in H as [H ?]).
  repeat split; try assumption;
    match goal with
    | Hn : negb (String.eqb s ?x) = true |- s <> ?x =>
        apply String.eqb_neq; now destruct (String.eqb s x)
    end.
Qed.

Lemma step_plain (allow : bool) (stack : list string) (seg : string) :
  plain_segment seg = true -> step allow stack seg = seg :: stack.
Proof.
  intros H. destruct (plain_segment_spec _ H) as (H1 & H2 & H3 & _).
  unfold step.
  apply String.eqb_neq in H1, H2, H3. now rewrite H1, H2, H3.
Qed.

Lemma string_concat_app (sep : string) (l1 l2 : list string) :
  l1 <> [] -> l2 <> [] ->
  String.concat sep (l1 ++ l2)%list =
  String.concat sep l1 +:+ sep +:+ String.concat sep l2.
Proof.
  intros H1 H2. induction l1 as [|x [|y l1] IH]; [congruence | |].
  - destruct l2; [congruence | reflexivity].
  - change (x +:+ sep +:+ String.concat sep ((y :: l1) ++ l2)%list =
            (x +:+ sep +:+ String.concat sep (y :: l1))
            +:+ sep +:+ String.concat sep l2).
    rewrite IH by discriminate. now rewrite !string_app_assoc.
Qed.

Lemma starts_with_slash_app (a b : string) :
  a <> "" -> starts_with_slash (a +:+ b) = starts_with_slash a.
Proof. destruct a; [congruence | reflexivity]. Qed.

Lemma ends_with_slash_app (a b : string) :
  b <> "" -> ends_with_slash (a +:+ b) = ends_with_slash b.
Proof.
  intros Hb. induction a as [|c a IH]; [reflexivity |].
  rewrite string_app_cons. simpl. rewrite IH.
  destruct (a +:+ b) eqn:Hab; [| reflexivity].
  destruct a; [| discriminate]. now rewrite string_app_nil_l in Hab.
Qed.

Lemma ends_with_slash_cons (c : ascii) (s : string) :
  s <> "" -> ends_with_slash (String c s) = ends_with_slash s.
Proof. destruct s; [congruence | reflexivity]. Qed.

Lemma ends_with_slash_no_slash (s : string) :
  no_slash s = true -> ends_with_slash s = false.
Proof.
  induction s as [|c s IH]; [reflexivity |]. simpl.
  intros H. apply andb_true_iff in H as [Hc Hs].
  destruct s; [now destruct (Ascii.eqb c "/") | now apply IH].
Qed.

Lemma string_app_nonempty (a b : string) : b <> "" -> a +:+ b <> "".
Proof. destruct a; [now rewrite string_app_nil_l | discriminate]. Qed.

(** A directory in normal form is its leading separator, if any, followed
    by its segments. *)
Lemma normal_dir_spec (root : string) :
  normal_dir root = true ->
  let stack :=
    fold_left (step (negb (starts_with_slash root))) (split root) [] in
  root <> "" /\ stack <> [] /\
  root = (if starts_with_slash root then "/" else "")
         +:+ String.concat "/" (rev stack).
Proof.
  intros H stack. unfold normal_dir in H.
  apply andb_true_iff in H as [H Hdot]. apply andb_true_iff in H as [H Htr].
  apply String.eqb_eq in H.
  apply negb_true_iff in Htr. apply negb_true_iff, String.eqb_neq in Hdot.
  unfold normalize in H.
  destruct (String.eqb_spec root "") as [He | Hne]; [congruence |].
  split; [exact Hne |].
  unfold normalizeString in H. fold stack in H. rewrite Htr in H.
  destruct (String.eqb_spec (String.concat "/" (rev stack)) "") as [Hp | Hp].
  - destruct (starts_with_slash root).
    + rewrite <- H in Htr. discriminate Htr.
    + congruence.
  - split.
    + intros Hs. rewrite Hs in Hp. now apply Hp.
    + destruct (starts_with_slash root); symmetry; exact H.
Qed.

(** Normalization leaves alone a directory in normal form extended by
    three plain segments. *)
Lemma normalize_plain (root a b k : string) :
  normal_dir root = true ->
  plain_segment a = true -> plain_segment b = true ->
  plain_segment k = true ->
  normalize (root +:+ String "/" (a +:+ String "/" (b +:+ String "/" k))) =
  root +:+ String "/" (a +:+ String "/" (b +:+ String "/" k)).
Proof.
  intros Hroot Ha Hb Hk.
  destruct (normal_dir_spec _ Hroot) as (Hne & Hstack & Hshape).
  destruct (plain_segment_spec _ Ha) as (Ha0 & _ & _ & Has).
  destruct (plain_segment_spec _ Hb) as (Hb0 & _ & _ & Hbs).
  destruct (plain_segment_spec _ Hk) as (Hk0 & _ & _ & Hks).
  set (tail := String "/" (a +:+ String "/" (b +:+ String "/" k))).
  assert (Hj : root +:+ tail <> "") by (apply string_app_nonempty; discriminate).
  assert (Htr : ends_with_slash (root +:+ tail) = false).
  { unfold tail.
    rewrite ends_with_slash_app by discriminate.
    rewrite ends_with_slash_cons by (apply string_app_nonempty; discriminate).
    rewrite ends_with_slash_app by discriminate.
    rewrite ends_with_slash_cons by (apply string_app_nonempty; discriminate).
    rewrite ends_with_slash_app by discriminate.
    rewrite ends_with_slash_cons by exact Hk0.
    now apply ends_with_slash_no_slash. }
  assert (Hnorm : normalizeString (root +:+ tail)
                    (negb (starts_with_slash root)) =
                  String.concat "/" (rev (fold_left
                    (step (negb (starts_with_slash root))) (split root) []))
                  +:+ tail).
  { unfold normalizeString, tail.
    rewrite !split_app, (split_no_slash _ Has), (split_no_slash _ Hbs),
      (split_no_slash _ Hks).
    rewrite !fold_left_app. simpl.
    rewrite (step_plain _ _ _ Ha), (step_plain _ _ _ Hb),
      (step_plain _ _ _ Hk).
    set (stack := fold_left _ (split root) []) in *.
    change (rev (k :: b :: a :: stack))
      with (((rev stack ++ [a]) ++ [b]) ++ [k])%list.
    rewrite <- !List.app_assoc. simpl.
    rewrite string_concat_app; [reflexivity | | discriminate].
    intros Hr. apply Hstack. apply (f_equal (@rev string)) in Hr.
    now rewrite rev_involutive in Hr. }
  unfold normalize.
  apply String.eqb_neq in Hj. rewrite Hj.
  rewrite starts_with_slash_app by exact Hne.
  rewrite Htr, Hnorm.
  assert (Hp : String.concat "/" (rev (fold_left
                 (step (negb (starts_with_slash root))) (split root) []))
               +:+ tail <> "") by (apply string_app_nonempty; discriminate).
  apply String.eqb_neq in Hp. rewrite Hp.
  set (p := String.concat "/" _) in *.
  transitivity (((if starts_with_slash root then "/" else "") +:+ p) +:+ tail);
    [| now rewrite <- Hshape].
  destruct (starts_with_slash root);
    now rewrite ?string_app_assoc, ?string_app_nil_l.
Qed.

(** Joining three plain segments to a directory in normal form appends
    them, one separator before each. *)
Lemma join_plain (root a b k : string) :
  normal_dir root = true ->
  plain_segment a = true -> plain_segment b = true ->
  plain_segment k = true ->
  join [root; a; b; k] = root +:+ "/" +:+ a +:+ "/" +:+ b +:+ "/" +:+ k.
Proof.
  intros Hroot Ha Hb Hk.
  destruct (normal_dir_spec _ Hroot) as (Hne & _ & _).
  destruct (plain_segment_spec _ Ha) as (Ha0 & _).
  destruct (plain_segment_spec _ Hb) as (Hb0 & _).
  destruct (plain_segment_spec _ Hk) as (Hk0 & _).
  unfold join. simpl.
  apply String.eqb_neq in Hne, Ha0, Hb0, Hk0.
  rewrite Hne, Ha0, Hb0, Hk0. simpl.
  exact (normalize_plain root a b k Hroot Ha Hb Hk).
Qed.

End PathFacts.

(** * The file stores *)
Section FileStores.

Import Js.

Lemma is_lower_hex_not_special (c : ascii) :
  is_lower_hex c = true -> Ascii.eqb c "/" = false /\ Ascii.eqb c "." = false.
Proof.
  intros H. split.
  - destruct (Ascii.eqb_spec c "/") as [-> |]; [discriminate H | reflexivity].
  - destruct (Ascii.eqb_spec c ".") as [-> |]; [discriminate H | reflexivity].
Qed.

Lemma hex_single_plain (a : ascii) :
  is_lower_hex a = true -> Path.plain_segment (String a "") = true.
Proof.
  intros Ha. destruct (is_lower_hex_not_special _ Ha) as [Hs Hd].
  unfold Path.plain_segment. simpl. now rewrite Hs, Hd.
Qed.

Lemma hex_pair_plain (a b : ascii) :
  is_lower_hex a = true -> is_lower_hex b = true ->
  Path.plain_segment (String a (String b "")) = true.
Proof.
  intros Ha Hb.
  destruct (is_lower_hex_not_special _ Ha) as [Hsa Hda].
  destruct (is_lower_hex_not_special _ Hb) as [Hsb Hdb].
  unfold Path.plain_segment. simpl. now rewrite Hsa, Hda, Hsb.
Qed.

(** A hex digit is one code unit. *)
Lemma code_units_hex (c : ascii) (rest : string) :
  is_lower_hex c = true ->
  code_units (String c rest) = String c "" :: code_units rest.
Proof.
  intros H. cbn [code_units].
  assert (Hlt : Nat.ltb (nat_of_ascii c) 192 = true).
  { unfold is_lower_hex in H. apply Nat.ltb_lt.
    apply orb_true_iff in H as [H | H]; apply andb_true_iff in H as [_ H];
      apply Nat.leb_le in H; lia. }
  now rewrite Hlt.
Qed.

Lemma digest_keyed_spec (key : string) :
  digest_keyed key = true ->
  exists a b c d rest,
    key = String a (String b (String c (String d rest))) /\
    is_lower_hex a = true /\ is_lower_hex b = true /\
    is_lower_hex c = true /\ is_lower_hex d = true /\
    Path.no_slash rest = true.
Proof.
  destruct key as [|a [|b [|c [|d rest]]]]; try discriminate.
  simpl. intros H. repeat (apply andb_true_iff in H as [H ?]).
  exists a, b, c, d, rest. repeat split; assumption.
Qed.

Lemma digest_keyed_plain (key : string) :
  digest_keyed key = true -> Path.plain_segment key = true.
Proof.
  intros H.
  destruct (digest_keyed_spec _ H) as (a & b & c & d & rest & -> & Ha & Hb & Hc & Hd & Hr).
  destruct (is_lower_hex_not_special _ Ha) as [Hsa Hda].
  destruct (is_lower_hex_not_special _ Hb) as [Hsb Hdb].
  destruct (is_lower_hex_not_special _ Hc) as [Hsc Hdc].
  destruct (is_lower_hex_not_special _ Hd) as [Hsd Hdd].
  unfold Path.plain_segment. simpl.
  rewrite Hsa, Hda. simpl. rewrite Hsb. simpl. rewrite Hsc. simpl.
  now rewrite Hsd, Hr.
Qed.


Lemma only_slashes_ends (s : string) :
  s <> "" -> Path.only_slashes s = true -> Path.ends_with_slash s = true.
Proof.
  induction s as [|c s IH]; [congruence |]. intros _. simpl.
  intros H. apply andb_true_iff in H as [Hc Hs].
  destruct s as [|c' s']; [exact Hc |]. apply IH; [discriminate | exact Hs].
Qed.

(** A path without trailing separator is the name of its entry. *)
Lemma chop_plain (p : string) :
  Path.ends_with_slash p = false -> Fs.chop p = p.
Proof.
  induction p as [|c rest IH]; [reflexivity |]. intros Hend. simpl.
  destruct (Path.only_slashes rest) eqn:Hs.
  - destruct rest as [|c' rest']; [reflexivity |].
    change (Path.ends_with_slash (String c' rest') = false) in Hend.
    rewrite (only_slashes_ends (String c' rest')) in Hend;
      [discriminate Hend | discriminate | exact Hs].
  - destruct rest as [|c' rest']; [discriminate Hs |].
    change (Path.ends_with_slash (String c' rest') = false) in Hend.
    now rewrite IH.
Qed.

(** The read fails with [ENOENT] exactly when nothing is at the path and
    no file stands on the way to it. *)
Lemma readFile_nothing (fs : gmap string Fs.node) (p : string) :
  Fs.nothing_at fs p = true -> Fs.readFile fs p = inl (Fs.errno "ENOENT").
Proof.
  unfold Fs.nothing_at, Fs.readFile, Fs.exists_at, Fs.missing. intros H.
  apply andb_true_iff in H as [Hex Hblocked].
  apply negb_true_iff in Hex, Hblocked.
  apply orb_false_iff in Hex as [Hdir Hnone].
  rewrite Hdir, Hblocked. now destruct (fs !! Fs.chop p).
Qed.




(** A file where the first fan-out directory should be: the entry is
    missing, and [get] throws [ENOTDIR]. *)
Example get_below_a_file :
  FileStore.get (FileStore.construct Sample.base None)
    {[ "/tmp/sparql-proxy/cache" := Fs.Directory;
       "/tmp/sparql-proxy/cache/d4" := Fs.File "x" ]}
    "d41d8cd98f00b204e9800998ecf8427e.raw" = inl (Fs.errno "ENOTDIR").
Proof. reflexivity. Qed.

(** C7 as stated fails for the store of part_001: its two directory levels
    are the first and the second character of the key, not two characters
    each. *)
Lemma plain_store_fans_out_by_single_characters :
  let store := {| PlainFileStore.rootDir := "/tmp/sparql-proxy/cache" |} in
  let key := "d41d8cd98f00b204e9800998ecf8427e.raw" in
  PlainFileStore.getPath store key =
    inr "/tmp/sparql-proxy/cache/d/4/d41d8cd98f00b204e9800998ecf8427e.raw" /\
  PlainFileStore.getPath store key <>
    inr (PlainFileStore.rootDir store +:+ "/" +:+ slice 0 2 key +:+ "/"
         +:+ slice 2 4 key +:+ "/" +:+ key).
Proof. split; [reflexivity | vm_compute; discriminate]. Qed.

(** C7, as amended: for a root directory in normal form and a key that
    starts with the digest and holds no separator, the store of part_000
    maps the key to [root/key[0:2]/key[2:4]/key], and the store of
    part_001 maps it to [root/key[0]/key[1]/key]. *)
Theorem file_store_layout (b : FileStore.Base) (root key : string) :
  Path.normal_dir root = true ->
  digest_keyed key = true ->
  FileStore.getPath {| FileStore.base := b; FileStore.rootDir := root |} key =
    root +:+ "/" +:+ slice 0 2 key +:+ "/" +:+ slice 2 4 key +:+ "/" +:+ key /\
  PlainFileStore.getPath {| PlainFileStore.rootDir := root |} key =
    inr (root +:+ "/" +:+ slice 0 1 key +:+ "/" +:+ slice 1 2 key
         +:+ "/" +:+ key).
Proof.
  intros Hroot Hkey.
  pose proof (digest_keyed_plain _ Hkey) as Hplain.
  destruct (digest_keyed_spec _ Hkey)
    as (a & c & d & e & rest & -> & Ha & Hc & Hd & He & Hr).
  split.
  - unfold FileStore.getPath. simpl FileStore.rootDir.
    apply join_plain; try assumption.
    + change (slice 0 2 _) with (String a (String c "")).
      now apply hex_pair_plain.
    + unfold slice. simpl. rewrite substring_0_0.
      now apply hex_pair_plain.
  - unfold PlainFileStore.getPath, Path.join_checked, char_at.
    rewrite !code_units_hex by assumption. simpl.
    f_equal. apply join_plain; try assumption.
    + change (slice 0 1 _) with (String a ""). now apply hex_single_plain.
    + change (slice 1 2 _) with (String c ""). now apply hex_single_plain.
Qed.

(** The key of [Sample.select_one] asked for as [text/csv], in the default
    directory. *)
Lemma file_store_layout_witness :
  FileStore.getPath (FileStore.construct Sample.base None)
    (Server.cacheKey_of Sample.config
       (Server.digest_of Sample.select_one "text/csv")) =
  "/tmp/sparql-proxy/cache/96/9d/969d668a19f6637e3f30286fa5ae65b2.raw".
Proof.
  apply (proj1 (file_store_layout Sample.base "/tmp/sparql-proxy/cache"
                  (Server.cacheKey_of Sample.config
                     (Server.digest_of Sample.select_one "text/csv"))
                  eq_refl eq_refl)).
Defined.

End FileStores.

(** * The chunk executor against a backend that holds a table *)
Section ChunkMerge.

Import ChunkExecutor.

Variables (head_of : Select -> list string).
Variables (rows : list (list (string * string))).
Variables (q : Select) (eff chunk_size : nat).

Hypothesis chunk_positive : 1 <= chunk_size.

(** The page the backend returns for the shard [LIMIT l OFFSET o]. *)
Let shard_page (l o : nat) : SolutionPage :=
  {| head := head_of (rewrite q l o); bindings := take l (drop o rows) |}.

Lemma table_backend_rewrite (l o : nat) :
  table_backend head_of rows (rewrite q l o) = Page (shard_page l o).
Proof. reflexivity. Qed.

Lemma issue_unfold (fuel : nat) (backend : Select -> Reply)
    (cancelled : nat -> bool) (index cur_offset collected : nat)
    (pages : list SolutionPage) :
  issue (S fuel) backend cancelled q eff chunk_size index cur_offset
        collected pages =
  if Nat.leb eff collected then Some (inr (rev pages))
  else if cancelled index then Some (inl Cancelled)
  else match backend (rewrite q (Nat.min chunk_size (eff - collected))
                              cur_offset) with
       | Failure status body => Some (inl (BackendError status body))
       | Page p =>
           if Nat.ltb (length (bindings p))
                      (Nat.min chunk_size (eff - collected))
           then Some (inr (rev (p :: pages)))
           else issue fuel backend cancelled q eff chunk_size (S index)
                  (cur_offset + chunk_size)
                  (collected + length (bindings p)) (p :: pages)
       end.
Proof. reflexivity. Qed.

Lemma bindings_app (pages more : list SolutionPage) :
  concat (map bindings (pages ++ more)) =
  (concat (map bindings pages) ++ concat (map bindings more))%list.
Proof. now rewrite map_app, List.concat_app. Qed.

(** The loop invariant: the pages so far hold the first [collected] rows
    from the user's offset on, every shard so far came back full, and the
    next shard starts where the rows collected end. With more fuel than
    rows are still wanted, the loop ends; it adds pages [more] that
    complete the first [eff] rows, the first of them being the page of the
    shard issued next. *)
Lemma issue_table (fuel index cur_offset collected : nat)
    (pages : list SolutionPage) :
  eff - collected < fuel ->
  collected <= eff ->
  collected = eff \/ cur_offset = userOffset q + collected ->
  collected <= length (drop (userOffset q) rows) ->
  concat (map bindings (rev pages)) = take collected (drop (userOffset q) rows) ->
  exists more,
    issue fuel (table_backend head_of rows) never q eff chunk_size
          index cur_offset collected pages = Some (inr (rev pages ++ more)%list) /\
    concat (map bindings (rev pages ++ more)) =
      take eff (drop (userOffset q) rows) /\
    (collected < eff ->
     exists rest,
       more = shard_page (Nat.min chunk_size (eff - collected)) cur_offset
              :: rest).
Proof.
  revert index cur_offset collected pages.
  induction fuel as [|fuel IH]; intros index cur_offset collected pages
    Hfuel Hle Hoff Hlen Hrows; [lia |].
  rewrite issue_unfold.
  destruct (Nat.leb_spec eff collected) as [Hdone | Hmore].
  - assert (collected = eff) by lia. subst collected.
    exists []. rewrite app_nil_r. repeat split; [assumption | lia].
  - destruct Hoff as [-> | ->]; [lia |].
    unfold never at 1. rewrite table_backend_rewrite.
    set (requested := Nat.min chunk_size (eff - collected)).
    set (p := shard_page requested (userOffset q + collected)).
    assert (Hreq : 1 <= requested <= eff - collected) by (unfold requested; lia).
    assert (Hjoin : (take collected (drop (userOffset q) rows) ++ bindings p)%list
                    = take (collected + requested) (drop (userOffset q) rows)).
    { unfold p. simpl. rewrite <- take_take_drop, drop_drop. reflexivity. }
    assert (Hret : length (bindings p) =
                   Nat.min requested
                     (length (drop (userOffset q) rows) - collected)).
    { unfold p. simpl. rewrite length_take, !length_drop. lia. }
    assert (Hsnoc : concat (map bindings (rev (p :: pages))) =
                    take (collected + requested) (drop (userOffset q) rows)).
    { simpl rev. rewrite bindings_app, Hrows.
      change (concat (map bindings [p])) with (bindings p ++ [])%list.
      rewrite app_nil_r. exact Hjoin. }
    destruct (Nat.ltb_spec (length (bindings p)) requested) as [Hshort | Hfull].
    + exists [p]. repeat split.
      * change (rev pages ++ [p])%list with (rev (p :: pages)). rewrite Hsnoc.
        rewrite !take_ge; [reflexivity | lia | lia].
      * intros _. now exists [].
    + assert (Hexact : length (bindings p) = requested) by lia.
      rewrite Hexact.
      destruct (IH (S index) (userOffset q + collected + chunk_size)
                  (collected + requested) (p :: pages))
        as (more & Hissue & Hall & _).
      * lia.
      * lia.
      * unfold requested. lia.
      * lia.
      * exact Hsnoc.
      * exists (p :: more). simpl rev in Hissue, Hall.
        rewrite <- !List.app_assoc in Hissue, Hall.
        repeat split; [exact Hissue | exact Hall |].
        intros _. now exists more.
Qed.

End ChunkMerge.

Section ChunkMergeClaims.

Import ChunkExecutor.

(** The spec's scenario for chunk execution: with shards of two and at
    most five rows, a backend of seven rows is asked for [LIMIT 2 OFFSET 0],
    [LIMIT 2 OFFSET 2] and [LIMIT 1 OFFSET 4]. *)
Example chunk_execution_scenario :
  execute 6 (Sample.traced_backend (Sample.rows 7)) never 2 5
          (Sample.select None None) =
  Some (Merged "application/sparql-results+json" (Some ["s"])
          [[("s", "0"); ("LIMIT", "2"); ("OFFSET", "0")];
           [("s", "1"); ("LIMIT", "2"); ("OFFSET", "0")];
           [("s", "2"); ("LIMIT", "2"); ("OFFSET", "2")];
           [("s", "3"); ("LIMIT", "2"); ("OFFSET", "2")];
           [("s", "4"); ("LIMIT", "1"); ("OFFSET", "4")]]).
Proof. reflexivity. Qed.

(** More fuel does not change what the loop returns. *)
Lemma issue_more_fuel (backend : Select -> Reply) (cancelled : nat -> bool)
    (q : Select) (eff chunk_size fuel extra index cur_offset collected : nat)
    (pages : list SolutionPage) (r : Outcome + list SolutionPage) :
  issue fuel backend cancelled q eff chunk_size index cur_offset collected
        pages = Some r ->
  issue (fuel + extra) backend cancelled q eff chunk_size index cur_offset
        collected pages = Some r.
Proof.
  revert index cur_offset collected pages.
  induction fuel as [|fuel IH]; intros index cur_offset collected pages;
    [discriminate |].
  simpl.
  destruct (Nat.leb eff collected); [trivial |].
  destruct (cancelled index); [trivial |].
  destruct (backend _) as [p | status body]; [| trivial].
  destruct (Nat.ltb _ _); [trivial | apply IH].
Qed.

(** With shards of size zero the loop of the spec asks for no rows, gets
    none, and goes on: it returns for no amount of fuel. *)
Lemma issue_stuck (head_of : Select -> list string)
    (rows : list (list (string * string))) (q : Select)
    (eff fuel index cur_offset collected : nat) (pages : list SolutionPage) :
  collected < eff ->
  issue fuel (table_backend head_of rows) never q eff 0 index cur_offset
        collected pages = None.
Proof.
  intros Hmore. revert index cur_offset pages.
  induction fuel as [|fuel IH]; intros index cur_offset pages;
    [reflexivity |].
  simpl. destruct (Nat.leb_spec eff collected) as [Hdone | _]; [lia |].
  rewrite take_0. simpl. rewrite !Nat.add_0_r. apply IH.
Qed.

(** C3: a [SELECT] with [LIMIT L] against a backend that holds [N] rows
    for it (the rows from the query's own offset on, in the backend's
    order) merges to the first [min(L, maxLimit)] of these rows, which are
    [min(L, maxLimit, N)] bindings, under the head of the first shard's
    page. Whenever the executor returns, this is what it returns; with a
    shard size limit of at least one it returns, given fuel for one shard
    more than the effective limit. No shard is issued, and no head is
    there to take, when the effective limit is zero. *)
Theorem chunk_merge_complete (head_of : Select -> list string)
    (rows : list (list (string * string))) (pat : string) (L : nat)
    (o : option nat) (maxChunkLimit maxLimit : nat) :
  let q := {| pattern := pat; limit := Some L; offset := o |} in
  let answer := drop (userOffset q) rows in
  let N := length answer in
  let first_shard :=
    rewrite q (Nat.min maxChunkLimit (Nat.min L maxLimit)) (userOffset q) in
  let merged := take (Nat.min L maxLimit) answer in
  let response :=
    Merged "application/sparql-results+json"
           (if Nat.eqb (Nat.min L maxLimit) 0 then None
            else Some (head_of first_shard))
           merged in
  length merged = Nat.min L (Nat.min maxLimit N) /\
  (forall fuel outcome,
     execute fuel (table_backend head_of rows) never maxChunkLimit maxLimit q
       = Some outcome ->
     outcome = response) /\
  (1 <= maxChunkLimit ->
   forall fuel,
     Nat.min L maxLimit < fuel ->
     execute fuel (table_backend head_of rows) never maxChunkLimit maxLimit q
       = Some response).
Proof.
  intros q answer N first_shard merged response.
  assert (Htotal : 1 <= maxChunkLimit \/ Nat.min L maxLimit = 0 ->
                   forall fuel, Nat.min L maxLimit < fuel ->
                   execute fuel (table_backend head_of rows) never
                           maxChunkLimit maxLimit q = Some response).
  { intros Hchunk fuel Hfuel. unfold execute, chunk.
    change (effectiveLimit maxLimit q) with (Nat.min L maxLimit).
    subst response.
    destruct (Nat.eqb_spec (Nat.min L maxLimit) 0) as [Hzero | Hpos].
    - subst merged. rewrite Hzero in *.
      destruct fuel as [|fuel']; [lia |]. reflexivity.
    - destruct (issue_table head_of rows q (Nat.min L maxLimit)
                  (Nat.min maxChunkLimit (Nat.min L maxLimit))
                  ltac:(lia) fuel 0 (userOffset q) 0 [])
        as (more & Hissue & Hrows & Hfirst);
        try solve [lia | reflexivity | right; lia].
      simpl in Hissue, Hrows. rewrite Hissue.
      destruct Hfirst as (rest & Hmore); [lia |].
      replace (Nat.min (Nat.min maxChunkLimit (Nat.min L maxLimit))
                       (Nat.min L maxLimit - 0))
        with (Nat.min maxChunkLimit (Nat.min L maxLimit)) in Hmore by lia.
      unfold merge. rewrite Hrows, Hmore. reflexivity. }
  split; [| split].
  - subst merged N. rewrite length_take. lia.
  - intros fuel outcome Hrun.
    destruct (Nat.eq_dec maxChunkLimit 0) as [Hzero | Hpos];
      [destruct (Nat.eq_dec (Nat.min L maxLimit) 0) as [Heff | Heff] |].
    + specialize (Htotal (or_intror Heff) (fuel + S (Nat.min L maxLimit))
                    ltac:(lia)).
      unfold execute in Hrun, Htotal.
      destruct (issue fuel _ _ _ _ _ _ _ _ _) as [r |] eqn:Hr;
        [| discriminate Hrun].
      rewrite (issue_more_fuel _ _ _ _ _ _ _ _ _ _ _ _ Hr) in Htotal.
      congruence.
    + exfalso. unfold execute, chunk in Hrun.
      change (effectiveLimit maxLimit q) with (Nat.min L maxLimit) in Hrun.
      rewrite Hzero in Hrun. simpl Nat.min in Hrun.
      rewrite issue_stuck in Hrun by lia. discriminate Hrun.
    + assert (Hchunk : 1 <= maxChunkLimit) by lia.
      specialize (Htotal (or_introl Hchunk)
                    (fuel + S (Nat.min L maxLimit)) ltac:(lia)).
      unfold execute in Hrun, Htotal.
      destruct (issue fuel _ _ _ _ _ _ _ _ _) as [r |] eqn:Hr;
        [| discriminate Hrun].
      rewrite (issue_more_fuel _ _ _ _ _ _ _ _ _ _ _ _ Hr) in Htotal.
      congruence.
  - intros Hchunk. apply Htotal. now left.
Qed.

(** The spec's scenario, with a [LIMIT] above the cap: seven rows, shards
    of two, at most five rows. *)
Lemma chunk_merge_complete_witness :
  execute 6 (table_backend (fun _ => ["s"]) (Sample.rows 7)) never 2 5
          (Sample.select (Some 9) None) =
  Some (Merged "application/sparql-results+json" (Some ["s"])
               (Sample.rows 5)).
Proof.
  refine (proj2 (proj2 (chunk_merge_complete (fun _ => ["s"]) (Sample.rows 7)
                          "?s { ?s ?p ?o } ORDER BY ?s" 9 None 2 5)) _ 6 _);
    vm_compute; lia.
Defined.

(** A query with an [OFFSET]: the backend holds three rows for the
    pattern, one of them for the query, and one binding is merged. *)
Example chunk_merge_with_offset :
  execute 10 (table_backend (fun _ => ["s"]) (Sample.rows 3)) never 2 10
          (Sample.select (Some 5) (Some 2)) =
    Some (Merged "application/sparql-results+json" (Some ["s"])
                 [Sample.row 2]).
Proof. reflexivity. Qed.

End ChunkMergeClaims.

(** * The digest and the keys of the stores *)
Section DigestShape.

Import Crypto.

(** The test suite of RFC 1321. *)
Example md5_test_suite :
  md5_hex "" = "d41d8cd98f00b204e9800998ecf8427e" /\
  md5_hex "a" = "0cc175b9c0f1b6a831c399e269772661" /\
  md5_hex "abc" = "900150983cd24fb0d6963f7d28e17f72" /\
  md5_hex "message digest" = "f96b697d7cb7938d525a2f31aaf161d0" /\
  md5_hex "abcdefghijklmnopqrstuvwxyz" = "c3fcd3d76192e4007dfb496cca67e13b" /\
  md5_hex "ABCDEFGHIJKLMNOPQRSTUVWXYZabcdefghijklmnopqrstuvwxyz0123456789"
    = "d174ab98d277d9f5a5611c2c9f419d9f" /\
  md5_hex ("1234567890123456789012345678901234567890"
           +:+ "1234567890123456789012345678901234567890")
    = "57edf4a22be3c955ac49da2e2107b67a".
Proof. vm_compute. repeat split. Qed.

Lemma hex_digit_lower (d : Z) :
  (0 <= d < 16)%Z -> is_lower_hex (hex_digit d) = true.
Proof.
  intros Hd.
  assert (Hn : d = Z.of_nat (Z.to_nat d)) by lia.
  assert (Hlt : Z.to_nat d < 16) by lia.
  rewrite Hn. clear Hn. generalize dependent (Z.to_nat d). intros n Hlt.
  do 16 (destruct n as [|n]; [reflexivity |]). lia.
Qed.

Lemma hex_all_lower (bytes : list Z) : all_lower_hex (hex bytes) = true.
Proof.
  induction bytes as [|b rest IH]; [reflexivity |]. simpl.
  rewrite !hex_digit_lower, IH; [reflexivity | |];
    apply Z.mod_pos_bound; lia.
Qed.

Lemma md5_length (msg : list Z) : length (md5 msg) = 16.
Proof.
  unfold md5.
  destruct (fold_left process_block _ initial) as [[[a b] c] d].
  reflexivity.
Qed.

Lemma all_lower_hex_no_slash (s : string) :
  all_lower_hex s = true -> Path.no_slash s = true.
Proof.
  induction s as [|c s IH]; [reflexivity |]. simpl.
  intros H. apply andb_true_iff in H as [Hc Hs].
  destruct (is_lower_hex_not_special _ Hc) as [-> _]. now apply IH.
Qed.

Lemma no_slash_app (a b : string) :
  Path.no_slash a = true -> Path.no_slash b = true ->
  Path.no_slash (a +:+ b) = true.
Proof.
  intros Ha Hb. induction a as [|c a IH]; [exact Hb |].
  rewrite string_app_cons. simpl in *.
  apply andb_true_iff in Ha as [-> Ha]. now apply IH.
Qed.

(** Every key the server computes has the shape the file stores rely on,
    provided the compressor id holds no separator. *)
Lemma server_keys_digest_keyed (cfg : Server.Config)
    (normalizedQuery accept : string) :
  Path.no_slash (Server.compressor cfg) = true ->
  digest_keyed (Server.cacheKey_of cfg
                  (Server.digest_of normalizedQuery accept)) = true.
Proof.
  intros Hc. unfold Server.cacheKey_of, Server.digest_of, digest_hex, md5_hex.
  set (msg := bytes_of_string _).
  pose proof (md5_length msg) as Hlen. pose proof (hex_all_lower (md5 msg)) as Hhex.
  destruct (md5 msg) as [|b0 [|b1 rest]]; try discriminate Hlen.
  simpl in Hhex. rewrite !string_app_cons. simpl.
  repeat (apply andb_true_iff in Hhex as [? Hhex]).
  repeat (apply andb_true_iff; split); try assumption.
  apply no_slash_app; [now apply all_lower_hex_no_slash |].
  now apply no_slash_app.
Qed.

End DigestShape.

(** * More on the [/sparql] handler *)

(** Case analysis on every branch of the handler. *)
Ltac handler_cases cfg lib env req :=
  unfold Server.sparql_handler;
  destruct (Server.dispatch req) as [q | |];
  [ destruct (Js.truthy q) eqn:Htruthy; simpl;
    [ destruct (Server.splitPreamble lib q) as [? | [preamble compatibleQuery]]
        eqn:Hsplit;
      [ | destruct (Server.parse lib compatibleQuery) as [? | ast] eqn:Hparse;
          [ | destruct (String.eqb (Server.ast_type lib ast) "query") eqn:Htype;
              simpl; [ run_cases cfg env | ] ] ]
    | ]
  | | ].

Section HandlerInvariants.

Import Js Server.

Variables (cfg : Config) (lib : Lib) (env : Env).
Variables (req : Request) (res0 : Response).

(** X1: whatever the request and whatever the collaborators do, at most
    one response leaves the handler, and the handler does not touch the
    status or the headers after it: a response that was sent is the
    response as the handler leaves it. *)
Theorem handler_sends_once :
  let run := sparql_handler cfg lib env req res0 in
  responses (events run) = [] \/ responses (events run) = [res run].
Proof.
  handler_cases cfg lib env req; first [now left | now right].
Qed.

(** X2: a method other than [GET], [POST] and [OPTIONS] is answered with
    405 and the text [Method Not Allowed]; neither the cache nor the queue
    nor the query log is touched. *)
Theorem other_methods_not_allowed :
  String.eqb (method req) "GET" = false ->
  String.eqb (method req) "POST" = false ->
  String.eqb (method req) "OPTIONS" = false ->
  let run := sparql_handler cfg lib env req res0 in
  res run = {| status := 405%N; headers := headers res0;
               sent := Some (Str "Method Not Allowed") |} /\
  events run = [Responded (res run)] /\
  thrown run = None.
Proof.
  intros Hget Hpost Hoptions run. subst run.
  unfold sparql_handler, dispatch. rewrite Hget, Hpost, Hoptions.
  repeat split.
Qed.

(** X3: a query that is absent or empty (any falsy value) is answered with
    400 and [{message: 'Query is required'}] before the preamble splitter,
    the parser, the cache or the queue is consulted. *)
Theorem missing_query_rejected (q : value) :
  dispatch req = WithQuery q ->
  truthy q = false ->
  let run := sparql_handler cfg lib env req res0 in
  res run = {| status := 400%N; headers := headers res0;
               sent := Some (Obj [("message", Str "Query is required")]) |} /\
  events run = [Responded (res run)] /\
  thrown run = None.
Proof.
  intros Hd Hq run. subst run. unfold sparql_handler. rewrite Hd, Hq.
  repeat split.
Qed.

(** X4: the cache, the queue and the query log are reached by accepted
    requests only: unless the query is there, splits, parses and has AST
    type ['query'], the run looks nothing up, enqueues nothing, stores
    nothing and logs nothing. In particular no update reaches the queue. *)
Theorem only_accepted_requests_go_on :
  let run := sparql_handler cfg lib env req res0 in
  (exists q preamble compatibleQuery ast,
     accepted lib req q preamble compatibleQuery ast) \/
  (cache_keys (events run) = [] /\ enqueued (events run) = [] /\
   cache_puts (events run) = [] /\ query_logs (events run) = []).
Proof.
  intros run. subst run. unfold sparql_handler.
  destruct (dispatch req) as [q | |] eqn:Hd; [| right; repeat split ..].
  destruct (truthy q) eqn:Hq; simpl; [| right; repeat split].
  destruct (splitPreamble lib q) as [? | [preamble compatibleQuery]] eqn:Hs;
    [right; repeat split |].
  destruct (parse lib compatibleQuery) as [? | ast] eqn:Hp;
    [right; repeat split |].
  destruct (String.eqb_spec (ast_type lib ast) "query") as [Hty | Hty]; simpl;
    [| right; repeat split].
  left. exists q, preamble, compatibleQuery, ast. repeat split; assumption.
Qed.

(** X5: what the handler stores in the cache is what it has just sent with
    the status untouched: at most one entry per request, the result the
    queue resolved to, carrying the content type and the body of the
    response. Error responses and cache hits are never stored. *)
Theorem stored_is_what_was_sent :
  let run := sparql_handler cfg lib env req res0 in
  cache_puts (events run) = [] \/
  exists key entry job token,
    cache_puts (events run) = [(key, entry)] /\
    cache_keys (events run) = [key; key] /\
    In (Enqueue job token) (events run) /\
    queue_enqueue env job token = inr entry /\
    status (res run) = status res0 /\
    sent (res run) = Some (entry_body entry) /\
    headers (res run) = <["Content-Type" := contentType entry]> (headers res0).
Proof.
  intros run. subst run. unfold sparql_handler.
  destruct (dispatch req) as [q | |]; [| left; reflexivity ..].
  destruct (truthy q); simpl; [| left; reflexivity].
  destruct (splitPreamble lib q) as [? | [preamble compatibleQuery]];
    [left; reflexivity |].
  destruct (parse lib compatibleQuery) as [? | ast]; [left; reflexivity |].
  destruct (String.eqb (ast_type lib ast) "query"); simpl;
    [| left; reflexivity].
  unfold lookup_then_run, run_job, respond_hit, log.
  set (key := cacheKey_of cfg _).
  set (job := make_job cfg req q (accept_of cfg req)).
  set (token := assoc "token" (query req)).
  destruct (cache_get env key) as [? | [cached |]];
    destruct (queue_enqueue env job token) as [? | entry] eqn:Hq;
    destruct (truthy (of_option (queryLogPath cfg)));
    try (left; reflexivity);
    right; exists key, entry, job, token;
    destruct (cache_put env key entry); simpl; repeat split; tauto.
Qed.

End HandlerInvariants.

Section HandlerOutcomes.

Import Js Server.

Variables (cfg : Config) (lib : Lib) (env : Env).
Variables (req : Request) (res0 : Response).

(** X6: when the queue rejects with a status code that a response can be
    written with (100 to 999; 500 stands in for an absent or zero
    [statusCode]), the response has that status and the error's [data], or
    the text [ERROR] when that is falsy; nothing is stored in the cache,
    nothing is logged, and nothing escapes the handler. *)
Theorem queue_failure_response q preamble compatibleQuery ast (e : error) :
  accepted lib req q preamble compatibleQuery ast ->
  is_hit (cache_get env (cacheKey_of cfg
            (digest_of (normalizedQuery_of lib preamble ast)
                       (accept_of cfg req)))) = false ->
  queue_enqueue env (make_job cfg req q (accept_of cfg req))
                (assoc "token" (query req)) = inl e ->
  writable_status (error_status e) = true ->
  let run := sparql_handler cfg lib env req res0 in
  res run = {| status := error_status e; headers := headers res0;
               sent := Some (if truthy (data e) then data e else Str "ERROR") |} /\
  responses (events run) = [res run] /\
  cache_puts (events run) = [] /\
  query_logs (events run) = [] /\
  thrown run = None.
Proof.
  intros Hacc Hmiss Hq _ run. subst run.
  rewrite (handler_accepted _ _ _ _ _ _ _ _ _ Hacc).
  unfold lookup_then_run, run_job.
  assert (Hstatus :
    match or_else match statusCode e with
                  | Some n => Num n
                  | None => Undefined
                  end (Num 500%N) with
    | Num n => n
    | _ => 500%N
    end = error_status e).
  { unfold error_status, or_else. destruct (statusCode e) as [n|]; simpl;
      [now destruct (N.eqb n 0) | reflexivity]. }
  destruct (cache_get env _) as [? | [? |]]; try discriminate Hmiss;
    rewrite Hq; simpl; rewrite Hstatus; repeat split.
Qed.

(** X7: the query log has a line only if a log path is configured and the
    request was answered from the cache or from the queue: one line then,
    with the query as the client sent it, the [cache-hit] flag, and the
    content type and body of the response. *)
Theorem query_log_lines q preamble compatibleQuery ast :
  accepted lib req q preamble compatibleQuery ast ->
  let run := sparql_handler cfg lib env req res0 in
  query_logs (events run) =
  if truthy (of_option (queryLogPath cfg)) then
    match cache_get env (cacheKey_of cfg
            (digest_of (normalizedQuery_of lib preamble ast)
                       (accept_of cfg req))) with
    | inr (Some cached) => [(q, true, contentType cached, entry_body cached)]
    | _ =>
        match queue_enqueue env (make_job cfg req q (accept_of cfg req))
                            (assoc "token" (query req)) with
        | inr result => [(q, false, contentType result, entry_body result)]
        | inl _ => []
        end
    end
  else [].
Proof.
  intros Hacc run. subst run.
  rewrite (handler_accepted _ _ _ _ _ _ _ _ _ Hacc).
  run_cases cfg env; reflexivity.
Qed.

(** X8: the token handed to the queue is the [token] of the query string,
    for every method: a token in the body of a form post is not looked
    at. *)
Theorem token_from_query_string q preamble compatibleQuery ast :
  accepted lib req q preamble compatibleQuery ast ->
  is_hit (cache_get env (cacheKey_of cfg
            (digest_of (normalizedQuery_of lib preamble ast)
                       (accept_of cfg req)))) = false ->
  let run := sparql_handler cfg lib env req res0 in
  In (Enqueue (make_job cfg req q (accept_of cfg req))
              (assoc "token" (query req))) (events run) /\
  forall job token,
    In (Enqueue job token) (events run) -> token = assoc "token" (query req).
Proof.
  intros Hacc Hmiss run. subst run.
  rewrite (handler_accepted _ _ _ _ _ _ _ _ _ Hacc).
  unfold lookup_then_run.
  destruct (cache_get env _) as [? | [? |]]; try discriminate Hmiss;
    unfold run_job, log;
    destruct (queue_enqueue env _ _);
    destruct (truthy (of_option (queryLogPath cfg)));
    repeat match goal with
           | |- context [cache_put env ?k ?c] => destruct (cache_put env k c)
           end; simpl;
    (split; [tauto |]);
    intros job token Hin;
    repeat (destruct Hin as [Hin | Hin]; [try discriminate Hin |]);
    try contradiction; now inversion Hin.
Qed.

End HandlerOutcomes.

(** * Cache keys *)
Section CacheKeys.

Import Js Server.

Lemma string_app_length (a b : string) :
  String.length (a +:+ b) = String.length a + String.length b.
Proof.
  induction a as [|c a IH]; [reflexivity |].
  rewrite string_app_cons. simpl. now rewrite IH.
Qed.

Lemma string_app_inj_length (a1 b1 a2 b2 : string) :
  String.length a1 = String.length a2 ->
  a1 +:+ b1 = a2 +:+ b2 -> a1 = a2 /\ b1 = b2.
Proof.
  revert a2. induction a1 as [|c a1 IH]; intros [|c2 a2] Hlen Heq;
    try discriminate Hlen.
  - rewrite !string_app_nil_l in Heq. now split.
  - rewrite !string_app_cons in Heq. injection Heq as -> Heq.
    destruct (IH a2) as [-> ->]; [now injection Hlen | exact Heq | now split].
Qed.

Lemma hex_length (bytes : list Z) :
  String.length (Crypto.hex bytes) = 2 * length bytes.
Proof.
  induction bytes as [|b rest IH]; [reflexivity |]. simpl. rewrite IH. lia.
Qed.

Lemma digest_length (normalizedQuery accept : string) :
  String.length (digest_of normalizedQuery accept) = 32.
Proof.
  unfold digest_of, Crypto.digest_hex, Crypto.md5_hex.
  now rewrite hex_length, md5_length.
Qed.

(** X9: two cache keys are equal exactly when the digests are equal and the
    compressor ids are equal: under another compressor id no key of this
    one is ever looked up or written. *)
Theorem keys_separate_compressors (cfg1 cfg2 : Config)
    (normalized1 accept1 normalized2 accept2 : string) :
  cacheKey_of cfg1 (digest_of normalized1 accept1) =
  cacheKey_of cfg2 (digest_of normalized2 accept2) <->
  digest_of normalized1 accept1 = digest_of normalized2 accept2 /\
  compressor cfg1 = compressor cfg2.
Proof.
  unfold cacheKey_of. split.
  - intros Heq.
    apply string_app_inj_length in Heq as [Hd Hc];
      [| now rewrite !digest_length].
    split; [exact Hd |].
    rewrite !string_app_cons, !string_app_nil_l in Hc. now injection Hc.
  - now intros [-> ->].
Qed.

(** X10: the cache key depends on the request through the canonical text
    and the accept value only: two accepted requests that differ in method,
    raw text, token or address, but agree on preamble followed by
    re-serialized AST and on the accept value, look up the same key. *)
Theorem same_canonical_same_key (cfg : Config) (lib1 lib2 : Lib)
    (env1 env2 : Env) (req1 req2 : Request) (res1 res2 : Response)
    q1 preamble1 compatibleQuery1 (ast1 : Ast lib1)
    q2 preamble2 compatibleQuery2 (ast2 : Ast lib2) :
  accepted lib1 req1 q1 preamble1 compatibleQuery1 ast1 ->
  accepted lib2 req2 q2 preamble2 compatibleQuery2 ast2 ->
  preamble1 +:+ stringify lib1 ast1 = preamble2 +:+ stringify lib2 ast2 ->
  accept_of cfg req1 = accept_of cfg req2 ->
  exists key rest1 rest2,
    events (sparql_handler cfg lib1 env1 req1 res1) = CacheGet key :: rest1 /\
    events (sparql_handler cfg lib2 env2 req2 res2) = CacheGet key :: rest2.
Proof.
  intros Hacc1 Hacc2 Hcanon Haccept.
  rewrite (handler_accepted _ _ _ _ _ _ _ _ _ Hacc1).
  rewrite (handler_accepted _ _ _ _ _ _ _ _ _ Hacc2).
  unfold normalizedQuery_of. rewrite Hcanon, Haccept.
  set (key := cacheKey_of cfg _). exists key.
  destruct (proj1 (lookup_keys cfg env1 req1 res1 q1 (accept_of cfg req2) key))
    as [rest1 H1].
  destruct (proj1 (lookup_keys cfg env2 req2 res2 q2 (accept_of cfg req2) key))
    as [rest2 H2].
  exists rest1, rest2. now split.
Qed.

End CacheKeys.

(** * Properties of [path.dirname] *)
Section DirnameFacts.

Import Path.

Lemma only_slashes_no_slash (s : string) :
  s <> "" -> no_slash s = true -> only_slashes s = false.
Proof.
  destruct s as [|c s]; [congruence |]. simpl. intros _ H.
  apply andb_true_iff in H as [Hc _].
  now destruct (Ascii.eqb c "/").
Qed.

Lemma before_last_name_no_slash (s : string) :
  no_slash s = true -> before_last_name s = None.
Proof.
  induction s as [|c s IH]; [reflexivity |]. simpl. intros H.
  apply andb_true_iff in H as [Hc Hs]. rewrite (IH Hs).
  now destruct (Ascii.eqb c "/").
Qed.

Lemma before_last_name_extend (p s : string) :
  s <> "" -> no_slash s = true ->
  before_last_name (p +:+ String "/" s) = Some p.
Proof.
  intros Hne Hs. induction p as [|c p IH].
  - rewrite string_app_nil_l. simpl.
    now rewrite (before_last_name_no_slash _ Hs), (only_slashes_no_slash _ Hne Hs).
  - rewrite string_app_cons. simpl. now rewrite IH.
Qed.

(** The parent of a path extended by one name is the path. *)
Lemma dirname_extend (p s : string) :
  p <> "" -> ends_with_slash p = false ->
  s <> "" -> no_slash s = true ->
  dirname (p +:+ String "/" s) = p.
Proof.
  intros Hp Hend Hne Hs. destruct p as [|c p]; [congruence |].
  rewrite string_app_cons. unfold dirname.
  rewrite (before_last_name_extend p s Hne Hs).
  destruct (Ascii.eqb_spec c "/") as [-> |]; [| reflexivity].
  destruct p; [discriminate Hend | reflexivity].
Qed.

Lemma before_last_name_length (s pre : string) :
  before_last_name s = Some pre -> String.length pre < String.length s.
Proof.
  revert pre. induction s as [|c s IH]; intros pre; [discriminate |]. simpl.
  destruct (before_last_name s) as [pre' |].
  - intros [= <-]. simpl. specialize (IH pre' eq_refl). lia.
  - destruct (Ascii.eqb c "/" && negb (only_slashes s)); [| discriminate].
    intros [= <-]. simpl. lia.
Qed.

Lemma before_last_name_empty (s : string) :
  before_last_name s = Some "" -> 2 <= String.length s.
Proof.
  destruct s as [|c s]; [discriminate |]. simpl.
  destruct (before_last_name s) as [pre |]; [discriminate |].
  destruct s as [|c' s']; [| simpl; lia].
  simpl. rewrite andb_false_r. discriminate.
Qed.

Lemma dirname_length (p : string) :
  p <> "" -> String.length (dirname p) <= String.length p.
Proof.
  destruct p as [|c rest]; [congruence |]. intros _. unfold dirname.
  destruct (before_last_name rest) as [pre |] eqn:Hpre.
  - apply before_last_name_length in Hpre.
    destruct (Ascii.eqb c "/" && String.eqb pre ""); simpl; lia.
  - destruct (Ascii.eqb c "/"); simpl; lia.
Qed.

(** The parent is the root or the working directory, or it is shorter. *)
Lemma dirname_shorter (p : string) :
  p <> "" ->
  String.eqb (dirname p) "/" || String.eqb (dirname p) "." = true \/
  String.length (dirname p) < String.length p.
Proof.
  destruct p as [|c rest]; [congruence |]. intros _. unfold dirname.
  destruct (before_last_name rest) as [pre |] eqn:Hpre.
  - right. pose proof (before_last_name_length _ _ Hpre) as Hlen.
    destruct (Ascii.eqb c "/" && String.eqb pre "") eqn:Hroot; simpl; [| lia].
    apply andb_true_iff in Hroot as [_ Hempty].
    apply String.eqb_eq in Hempty. subst pre.
    apply before_last_name_empty in Hpre. lia.
  - left. now destruct (Ascii.eqb c "/").
Qed.

Lemma dirname_nonempty (p : string) : dirname p <> "".
Proof.
  destruct p as [|c rest]; [discriminate |]. unfold dirname.
  destruct (before_last_name rest) as [pre |].
  - destruct (Ascii.eqb c "/" && String.eqb pre ""); discriminate.
  - destruct (Ascii.eqb c "/"); discriminate.
Qed.

Lemma lineage_length (fuel : nat) (p x : string) :
  In x (lineage fuel p) -> String.length x <= String.length p.
Proof.
  revert p. induction fuel as [|fuel IH]; intros p; [contradiction |]. simpl.
  destruct (String.eqb p "/" || String.eqb p "."); [contradiction |].
  intros [<- | Hin]; [lia |].
  destruct p as [|c rest].
  - destruct fuel; contradiction.
  - apply IH in Hin. pose proof (dirname_length (String c rest)) as Hd.
    specialize (Hd ltac:(discriminate)). lia.
Qed.

(** With fuel for the length of the path, more fuel adds nothing. *)
Lemma lineage_enough (fuel fuel' : nat) (p : string) :
  p <> "" -> String.length p <= fuel -> String.length p <= fuel' ->
  lineage fuel p = lineage fuel' p.
Proof.
  revert fuel' p. induction fuel as [|fuel IH]; intros fuel' p Hne Hf Hf'.
  - destruct p; [congruence | simpl in Hf; lia].
  - destruct fuel' as [|fuel']; [destruct p; [congruence | simpl in Hf'; lia] |].
    simpl. destruct (String.eqb p "/" || String.eqb p "."); [reflexivity |].
    f_equal.
    destruct (dirname_shorter p Hne) as [Hspecial | Hshort].
    + destruct fuel, fuel'; simpl; rewrite ?Hspecial; reflexivity.
    + apply IH; [apply dirname_nonempty | lia | lia].
Qed.

Lemma lineage_cons (fuel : nat) (p : string) :
  String.eqb p "/" || String.eqb p "." = false ->
  lineage (S fuel) p = p :: lineage fuel (dirname p).
Proof. simpl. now intros ->. Qed.

(** The ancestors of a path are the path and the ancestors of its
    parent. *)
Lemma ancestors_cons (p : string) :
  p <> "" -> String.eqb p "/" || String.eqb p "." = false ->
  ancestors p = p :: ancestors (dirname p).
Proof.
  intros Hne Hp. unfold ancestors.
  destruct p as [|c rest]; [congruence |].
  change (String.length (String c rest)) with (S (String.length rest)).
  rewrite (lineage_cons _ _ Hp). f_equal.
  set (d := dirname (String c rest)).
  destruct (dirname_shorter (String c rest) Hne) as [Hspecial | Hshort];
    fold d in Hspecial || fold d in Hshort.
  - destruct (String.length rest), (String.length d); simpl;
      rewrite ?Hspecial; reflexivity.
  - apply lineage_enough; [apply dirname_nonempty | simpl in Hshort; lia | lia].
Qed.

Lemma ancestors_length (p x : string) :
  In x (ancestors p) -> String.length x <= String.length p.
Proof. apply lineage_length. Qed.

End DirnameFacts.

(** * Writing to the file stores *)
Section StoreWrites.

Import Js.

Variable lim : Fs.limits.

Lemma string_prefix_app (a b : string) : String.prefix a (a +:+ b) = true.
Proof.
  induction a as [|c a IH]; [now destruct b |].
  rewrite string_app_cons. simpl.
  destruct (ascii_dec c c); [exact IH | congruence].
Qed.

(** How [writeFile] ends: the file holds the data; or nothing has changed;
    or the file holds the bytes that reached it. *)
Lemma writeFile_cases (fs : gmap string Fs.node) (p data : string) :
  (Fs.writeFile lim fs p data = (<[p := Fs.File data]> fs, inr tt) /\
   Fs.is_directory fs p = false /\ Path.ends_with_slash p = false) \/
  (exists e, Fs.writeFile lim fs p data = (fs, inl e)) \/
  (exists e n, Fs.writeFile lim fs p data
               = (<[p := Fs.File (substring 0 n data)]> fs, inl e)).
Proof.
  unfold Fs.writeFile.
  destruct (Fs.is_directory fs (Fs.chop p)) eqn:Hdir; [right; left; eauto |].
  destruct (Fs.is_directory fs (Path.dirname p)); simpl;
    [| right; left; eauto].
  destruct (Path.ends_with_slash p) eqn:Hend; [right; left; eauto |].
  rewrite (chop_plain _ Hend) in Hdir.
  assert (Hopen :
    (match Fs.on_open lim p with
     | Some r => (fs, inl (Fs.refused r))
     | None =>
         match Fs.on_write lim p with
         | Some (r, n) =>
             (<[p := Fs.File (substring 0 n data)]> fs, inl (Fs.refused r))
         | None => (<[p := Fs.File data]> fs, inr tt)
         end
     end = (<[p := Fs.File data]> fs, inr tt) /\
     Fs.is_directory fs p = false /\ false = false) \/
    (exists e,
       match Fs.on_open lim p with
       | Some r => (fs, inl (Fs.refused r))
       | None =>
           match Fs.on_write lim p with
           | Some (r, n) =>
               (<[p := Fs.File (substring 0 n data)]> fs, inl (Fs.refused r))
           | None => (<[p := Fs.File data]> fs, inr tt)
           end
       end = (fs, inl e)) \/
    (exists e n,
       match Fs.on_open lim p with
       | Some r => (fs, inl (Fs.refused r))
       | None =>
           match Fs.on_write lim p with
           | Some (r, n) =>
               (<[p := Fs.File (substring 0 n data)]> fs, inl (Fs.refused r))
           | None => (<[p := Fs.File data]> fs, inr tt)
           end
       end = (<[p := Fs.File (substring 0 n data)]> fs, inl e))).
  { destruct (Fs.on_open lim p); [right; left; eauto |].
    destruct (Fs.on_write lim p) as [[r n] |]; [right; right; eauto |].
    left. auto. }
  destruct (fs !! p) as [[| |] |]; try exact Hopen. right; left; eauto.
Qed.

Lemma writeFile_ok (fs fs' : gmap string Fs.node) (p data : string) :
  Fs.writeFile lim fs p data = (fs', inr tt) ->
  Fs.readFile fs' p = inr data.
Proof.
  destruct (writeFile_cases fs p data)
    as [(-> & Hdir & Hend) | [(e & ->) | (e & n & ->)]]; try discriminate.
  intros [= <-]. unfold Fs.readFile. rewrite (chop_plain _ Hend), Hend.
  unfold Fs.is_directory in *. rewrite lookup_insert_eq.
  apply orb_false_iff in Hdir as [Hdir _]. now rewrite Hdir.
Qed.

Lemma written_is_read (store : FileStore.t) (fs fs' : gmap string Fs.node)
    (key : string) (obj : Server.CacheEntry) :
  FileStore.round_trips (FileStore.base store) obj ->
  FileStore.put lim store fs key obj = (fs', inr tt) ->
  FileStore.get store fs' key = inr (Some obj).
Proof.
  unfold FileStore.round_trips, FileStore.put, FileStore.get,
    FileStore.read_entry.
  destruct (FileStore.serialize _ obj) as [e | data]; [discriminate |].
  intros Hround.
  destruct (Fs.mkdirp lim fs _) as [fs1 [e | []]]; [discriminate |].
  intros Hwrite. apply writeFile_ok in Hwrite. now rewrite Hwrite, Hround.
Qed.

(** X11: an entry that [put] wrote is what [get] returns, on whatever file
    system the write succeeded and whatever the system refuses elsewhere,
    provided deserialization undoes serialization for this entry. *)
Theorem put_then_get (store : FileStore.t) (fs fs' : gmap string Fs.node)
    (key : string) (obj : Server.CacheEntry) :
  FileStore.round_trips (FileStore.base store) obj ->
  FileStore.put lim store fs key obj = (fs', inr tt) ->
  FileStore.get store fs' key = inr (Some obj).
Proof. exact (written_is_read store fs fs' key obj). Qed.

(** X12: the store of part_001 returns from [get] the value a successful
    [put] wrote under the key. *)
Theorem plain_put_then_get (store : PlainFileStore.t)
    (fs fs' : gmap string Fs.node) (key value : string) :
  PlainFileStore.put lim store fs key value = (fs', inr tt) ->
  PlainFileStore.get store fs' key = inr (Some value).
Proof.
  unfold PlainFileStore.put, PlainFileStore.get.
  destruct (PlainFileStore.getPath store key) as [e | _path]; [discriminate |].
  destruct (Fs.mkdirp lim fs _) as [fs1 [e | []]]; [discriminate |].
  intros Hwrite. apply writeFile_ok in Hwrite. now rewrite Hwrite.
Qed.

(** X13: in the store of part_001 a key of fewer than two UTF-16 code
    units (the empty key, or one character of the basic plane) makes
    [getPath] throw a [TypeError] ([key[1]] is [undefined]); [get] and
    [put] throw it too, [get] instead of returning [null], [put] before
    anything is written. *)
Theorem plain_store_short_key (store : PlainFileStore.t)
    (fs : gmap string Fs.node) (key value : string) :
  Nat.ltb (length (code_units key)) 2 = true ->
  let e := TypeError "Path must be a string. Received undefined" in
  PlainFileStore.getPath store key = inl e /\
  PlainFileStore.get store fs key = inl e /\
  PlainFileStore.put lim store fs key value = (fs, inl e).
Proof.
  intros Hlen e.
  assert (Hpath : PlainFileStore.getPath store key = inl e).
  { unfold PlainFileStore.getPath, Path.join_checked, char_at.
    destruct (code_units key) as [|u0 [|u1 units]]; try reflexivity.
    discriminate Hlen. }
  unfold PlainFileStore.get, PlainFileStore.put. now rewrite Hpath.
Qed.

(** X14: for a root directory in normal form that exists, the store of
    part_000 does not throw on the empty key: its empty slices are dropped
    by [path.join], and the key is mapped to the root directory itself, so
    that [get] fails with [EISDIR] instead of reporting a miss. *)
Theorem file_store_empty_key (b : FileStore.Base) (root : string)
    (fs : gmap string Fs.node) :
  Path.normal_dir root = true ->
  fs !! root = Some Fs.Directory ->
  let store := {| FileStore.base := b; FileStore.rootDir := root |} in
  FileStore.getPath store "" = root /\
  FileStore.get store fs "" = inl (Fs.errno "EISDIR").
Proof.
  intros Hroot Hdir store.
  assert (Hpath : FileStore.getPath store "" = root).
  { unfold FileStore.getPath, Path.join. simpl.
    destruct (normal_dir_spec _ Hroot) as (Hne & _).
    apply String.eqb_neq in Hne. rewrite Hne. simpl.
    unfold Path.normal_dir in Hroot.
    apply andb_true_iff in Hroot as [Hroot _].
    apply andb_true_iff in Hroot as [Hroot _].
    now apply String.eqb_eq in Hroot. }
  split; [exact Hpath |].
  assert (Hend : Path.ends_with_slash root = false).
  { unfold Path.normal_dir in Hroot.
    apply andb_true_iff in Hroot as [Hroot _].
    apply andb_true_iff in Hroot as [_ Hend]. now apply negb_true_iff in Hend. }
  unfold FileStore.get, FileStore.read_entry, Fs.readFile.
  rewrite Hpath, (chop_plain _ Hend).
  unfold Fs.is_directory. rewrite Hdir, !orb_true_r. reflexivity.
Qed.

End StoreWrites.

(** * The layout that [put] builds *)
Section StoreLayout.

Import Js.

Variables (b : FileStore.Base) (root : string).

Let store : FileStore.t :=
  {| FileStore.base := b; FileStore.rootDir := root |}.

Hypothesis root_normal : Path.normal_dir root = true.

Lemma normal_dir_not_special :
  root <> "" /\ Path.ends_with_slash root = false /\
  String.eqb root "/" || String.eqb root "." = false.
Proof.
  destruct (normal_dir_spec _ root_normal) as (Hne & _).
  pose proof root_normal as H. unfold Path.normal_dir in H.
  apply andb_true_iff in H as [H Hdot]. apply andb_true_iff in H as [_ Hend].
  apply negb_true_iff in Hend, Hdot.
  repeat split; try assumption.
  rewrite Hdot, orb_false_r.
  destruct (String.eqb_spec root "/") as [-> |]; [discriminate Hend | reflexivity].
Qed.

(** A path one plain name below another: it has no trailing separator,
    it is neither the root nor the working directory nor above it, and it
    is a directory when the tree says so. *)
Lemma below_shape (a s : string) :
  Path.plain_segment s = true ->
  a +:+ String "/" s <> "" /\
  Path.ends_with_slash (a +:+ String "/" s) = false /\
  String.eqb (a +:+ String "/" s) "/" || String.eqb (a +:+ String "/" s) "."
    = false /\
  Fs.climbs (a +:+ String "/" s) = false.
Proof.
  intros Hplain.
  destruct (plain_segment_spec _ Hplain) as (Hne & _ & Hdots & Hns).
  assert (Hlen : 2 <= String.length (a +:+ String "/" s)).
  { rewrite string_app_length. destruct s; [congruence | simpl; lia]. }
  repeat split.
  - intros Heq. rewrite Heq in Hlen. simpl in Hlen. lia.
  - rewrite ends_with_slash_app by discriminate.
    rewrite ends_with_slash_cons by exact Hne.
    now apply ends_with_slash_no_slash.
  - destruct (String.eqb_spec (a +:+ String "/" s) "/") as [Heq |];
      [rewrite Heq in Hlen; simpl in Hlen; lia |].
    destruct (String.eqb_spec (a +:+ String "/" s) ".") as [Heq |];
      [rewrite Heq in Hlen; simpl in Hlen; lia |].
    reflexivity.
  - unfold Fs.climbs. rewrite split_app, forallb_app, (split_no_slash _ Hns).
    cbn [forallb]. apply String.eqb_neq in Hdots.
    rewrite (String.eqb_sym ".." s), Hdots. now rewrite andb_false_r.
Qed.

Lemma is_directory_below (fs : gmap string Fs.node) (a s : string) :
  Path.plain_segment s = true ->
  Fs.is_directory fs (a +:+ String "/" s) =
  match fs !! (a +:+ String "/" s) with
  | Some Fs.Directory => true
  | _ => false
  end.
Proof.
  intros Hplain. destruct (below_shape a s Hplain) as (_ & _ & Hsp & Hcl).
  unfold Fs.is_directory. now rewrite Hsp, Hcl.
Qed.

(** The names of the two fan-out directories and of the entry. *)
Lemma entry_names (key : string) :
  digest_keyed key = true ->
  exists s1 s2,
    Path.plain_segment s1 = true /\ Path.plain_segment s2 = true /\
    Path.plain_segment key = true /\
    FileStore.level1 store key = root +:+ String "/" s1 /\
    FileStore.level2 store key = FileStore.level1 store key +:+ String "/" s2 /\
    FileStore.getPath store key = FileStore.level2 store key +:+ String "/" key.
Proof.
  intros Hkey.
  pose proof (digest_keyed_plain _ Hkey) as Hplain.
  destruct (digest_keyed_spec _ Hkey)
    as (a & c & d & e & rest & -> & Ha & Hc & Hd & He & Hr).
  set (key := String a (String c (String d (String e rest)))) in *.
  pose proof (hex_pair_plain _ _ Ha Hc) as H1.
  pose proof (hex_pair_plain _ _ Hd He) as H2.
  assert (Hs1 : slice 0 2 key = String a (String c "")) by reflexivity.
  assert (Hs2 : slice 2 4 key = String d (String e "")).
  { unfold slice, key. simpl. now rewrite substring_0_0. }
  exists (String a (String c "")), (String d (String e "")).
  assert (Hl1 : FileStore.level1 store key
                = root +:+ String "/" (String a (String c ""))).
  { unfold FileStore.level1. now rewrite Hs1. }
  assert (Hl2 : FileStore.level2 store key
                = FileStore.level1 store key
                  +:+ String "/" (String d (String e ""))).
  { unfold FileStore.level2. now rewrite Hs2. }
  repeat split; try assumption.
  unfold FileStore.getPath. simpl FileStore.rootDir.
  rewrite Hs1, Hs2, (join_plain _ _ _ _ root_normal H1 H2 Hplain).
  rewrite Hl2, Hl1. now rewrite !string_app_assoc.
Qed.

(** The path of an entry, one name below [level2], which is one name below
    [level1], which is one name below the root. *)
Lemma entry_path (key : string) :
  digest_keyed key = true ->
  FileStore.getPath store key =
    FileStore.level2 store key +:+ String "/" key /\
  Path.dirname (FileStore.getPath store key) = FileStore.level2 store key /\
  Path.dirname (FileStore.level2 store key) = FileStore.level1 store key /\
  Path.dirname (FileStore.level1 store key) = root /\
  String.length (FileStore.level1 store key) = String.length root + 3 /\
  String.length (FileStore.level2 store key) = String.length root + 6 /\
  String.length (FileStore.getPath store key) =
    String.length root + 7 + String.length key.
Proof.
  intros Hkey.
  destruct normal_dir_not_special as (Hne & Hend & _).
  pose proof (digest_keyed_plain _ Hkey) as Hplain.
  destruct (plain_segment_spec _ Hplain) as (Hk0 & _ & _ & Hks).
  destruct (digest_keyed_spec _ Hkey)
    as (a & c & d & e & rest & -> & Ha & Hc & Hd & He & Hr).
  set (key := String a (String c (String d (String e rest)))) in *.
  pose proof (hex_pair_plain _ _ Ha Hc) as H1.
  pose proof (hex_pair_plain _ _ Hd He) as H2.
  destruct (plain_segment_spec _ H1) as (H10 & _ & _ & H1s).
  destruct (plain_segment_spec _ H2) as (H20 & _ & _ & H2s).
  assert (Hs1 : slice 0 2 key = String a (String c "")) by reflexivity.
  assert (Hs2 : slice 2 4 key = String d (String e "")).
  { unfold slice, key. simpl. now rewrite substring_0_0. }
  assert (Hl1 : FileStore.level1 store key
                = root +:+ String "/" (String a (String c ""))).
  { unfold FileStore.level1. now rewrite Hs1. }
  assert (Hl2 : FileStore.level2 store key
                = FileStore.level1 store key
                  +:+ String "/" (String d (String e ""))).
  { unfold FileStore.level2. now rewrite Hs2. }
  assert (Hpath : FileStore.getPath store key
                  = FileStore.level2 store key +:+ String "/" key).
  { unfold FileStore.getPath. simpl FileStore.rootDir.
    rewrite Hs1, Hs2, (join_plain _ _ _ _ root_normal H1 H2 Hplain).
    rewrite Hl2, Hl1. now rewrite !string_app_assoc. }
  assert (Hlen1 : String.length (FileStore.level1 store key)
                  = String.length root + 3).
  { rewrite Hl1, string_app_length. simpl. lia. }
  assert (Hlen2 : String.length (FileStore.level2 store key)
                  = String.length root + 6).
  { rewrite Hl2, string_app_length, Hlen1. simpl. lia. }
  assert (Hend1 : Path.ends_with_slash (FileStore.level1 store key) = false).
  { rewrite Hl1, ends_with_slash_app by discriminate.
    rewrite ends_with_slash_cons by discriminate.
    now apply ends_with_slash_no_slash. }
  assert (Hend2 : Path.ends_with_slash (FileStore.level2 store key) = false).
  { rewrite Hl2, ends_with_slash_app by discriminate.
    rewrite ends_with_slash_cons by discriminate.
    now apply ends_with_slash_no_slash. }
  assert (Hne1 : FileStore.level1 store key <> "").
  { rewrite Hl1. apply string_app_nonempty. discriminate. }
  assert (Hne2 : FileStore.level2 store key <> "").
  { rewrite Hl2. apply string_app_nonempty. discriminate. }
  repeat split.
  - exact Hpath.
  - rewrite Hpath. now apply dirname_extend.
  - rewrite Hl2. now apply dirname_extend.
  - rewrite Hl1. now apply dirname_extend.
  - exact Hlen1.
  - exact Hlen2.
  - rewrite Hpath, string_app_length, Hlen2. simpl. lia.
Qed.

Lemma entry_path_inj (key1 key2 : string) :
  digest_keyed key1 = true ->
  digest_keyed key2 = true ->
  FileStore.getPath store key1 = FileStore.getPath store key2 ->
  key1 = key2.
Proof.
  intros H1 H2 Heq.
  destruct (entry_path key1 H1) as (Hp1 & _ & _ & _ & _ & Hlen1 & _).
  destruct (entry_path key2 H2) as (Hp2 & _ & _ & _ & _ & Hlen2 & _).
  rewrite Hp1, Hp2 in Heq.
  apply string_app_inj_length in Heq as [_ Heq]; [| lia].
  now injection Heq.
Qed.

(** X15: two keys of the server's shape have the same path only if they
    are the same key: no two entries share a file. *)
Theorem getPath_injective (key1 key2 : string) :
  digest_keyed key1 = true ->
  digest_keyed key2 = true ->
  FileStore.getPath store key1 = FileStore.getPath store key2 ->
  key1 = key2.
Proof. exact (entry_path_inj key1 key2). Qed.

(** The directories above an entry: the two fan-out directories, the
    root, and what is above the root. *)
Lemma entry_ancestors (key : string) :
  digest_keyed key = true ->
  Path.ancestors (Path.dirname (FileStore.getPath store key)) =
    FileStore.level2 store key :: FileStore.level1 store key
    :: root :: Path.ancestors (Path.dirname root).
Proof.
  intros Hkey.
  destruct (entry_path key Hkey) as (_ & -> & Hd2 & Hd1 & _).
  destruct (entry_names key Hkey) as (s1 & s2 & H1 & H2 & _ & Hl1 & Hl2 & _).
  destruct normal_dir_not_special as (Hne & _ & Hsp).
  destruct (below_shape (FileStore.level1 store key) s2 H2)
    as (Hne2 & _ & Hsp2 & _).
  destruct (below_shape root s1 H1) as (Hne1 & _ & Hsp1 & _).
  rewrite <- Hl2 in Hne2, Hsp2. rewrite <- Hl1 in Hne1, Hsp1.
  rewrite (ancestors_cons _ Hne2 Hsp2), Hd2.
  rewrite (ancestors_cons _ Hne1 Hsp1), Hd1.
  now rewrite (ancestors_cons _ Hne Hsp).
Qed.

(** What [rimraf] leaves of the tree. *)
Lemma lookup_removed (fs : gmap string Fs.node) (p x : string) :
  filter (fun kv => Fs.under p (fst kv) = false) fs !! x =
  if Fs.under p x then None else fs !! x.
Proof.
  destruct (Fs.under p x) eqn:Hu.
  - apply map_lookup_filter_None. right. intros n _. simpl. congruence.
  - destruct (fs !! x) as [n |] eqn:Hx.
    + apply map_lookup_filter_Some. auto.
    + apply map_lookup_filter_None. now left.
Qed.

Lemma under_below (p s : string) :
  String.eqb p "/" = false -> Fs.under p (p +:+ String "/" s) = true.
Proof.
  intros Hp. unfold Fs.under. rewrite Hp. apply orb_true_iff. right.
  change (String "/" s) with ("/" +:+ s). rewrite <- string_app_assoc.
  apply string_prefix_app.
Qed.

Lemma under_trans (p a s : string) :
  Fs.under p a = true -> Fs.under p (a +:+ String "/" s) = true.
Proof.
  unfold Fs.under. intros H. apply orb_true_iff in H as [H | H].
  - apply String.eqb_eq in H. subst a. apply orb_true_iff. right.
    destruct (String.eqb_spec p "/") as [-> | _].
    + reflexivity.
    + change (String "/" s) with ("/" +:+ s). rewrite <- string_app_assoc.
      apply string_prefix_app.
  - apply orb_true_iff. right.
    revert H. generalize (if String.eqb p "/" then "/" else p +:+ "/").
    intros pre. revert a. induction pre as [|c pre IH]; intros a.
    + now destruct (a +:+ String "/" s).
    + destruct a as [|c' a]; [discriminate |].
      rewrite string_app_cons. simpl.
      destruct (ascii_dec c c'); [apply IH | discriminate].
Qed.

(** X16: for a root directory in normal form, after a [purge] that
    succeeded every [get] for a key of the server's shape reports a miss,
    whatever the file system was. *)
Theorem purge_then_get (lim : Fs.limits) (fs fs' : gmap string Fs.node)
    (key : string) :
  digest_keyed key = true ->
  FileStore.purge lim store fs = inr fs' ->
  FileStore.get store fs' key = inr None.
Proof.
  intros Hkey Hpurge.
  destruct normal_dir_not_special as (Hne & Hend & Hsp).
  destruct (entry_names key Hkey)
    as (s1 & s2 & H1 & H2 & Hplain & Hl1 & Hl2 & Hp).
  assert (Hnorm : Path.normalize root = root).
  { pose proof root_normal as H. unfold Path.normal_dir in H.
    apply andb_true_iff in H as [H _]. apply andb_true_iff in H as [H _].
    now apply String.eqb_eq in H. }
  assert (Hroot : String.eqb root "/" = false).
  { now apply orb_false_iff in Hsp as [Hsp _]. }
  unfold FileStore.purge, Fs.rimraf in Hpurge. simpl FileStore.rootDir in Hpurge.
  rewrite Hnorm, (chop_plain _ Hend) in Hpurge.
  destruct (Fs.blocked fs root) eqn:Hblocked; [discriminate Hpurge |].
  destruct (if Fs.exists_at fs root then Fs.on_remove lim root else None);
    [discriminate Hpurge |].
  injection Hpurge as <-.
  set (fs' := filter _ fs).
  assert (Hu0 : Fs.under root root = true).
  { unfold Fs.under. now rewrite String.eqb_refl. }
  assert (Hu1 : Fs.under root (FileStore.level1 store key) = true).
  { rewrite Hl1. now apply under_below. }
  assert (Hu2 : Fs.under root (FileStore.level2 store key) = true).
  { rewrite Hl2. now apply under_trans. }
  assert (Hu : Fs.under root (FileStore.getPath store key) = true).
  { rewrite Hp. now apply under_trans. }
  assert (Hgone : forall x, Fs.under root x = true -> fs' !! x = None).
  { intros x Hx. unfold fs'. now rewrite lookup_removed, Hx. }
  assert (Hless : forall x, Fs.not_a_directory fs' x = true ->
                            Fs.not_a_directory fs x = true).
  { intros x. unfold Fs.not_a_directory, Fs.exists_at, Fs.is_directory, fs'.
    rewrite lookup_removed.
    destruct (Fs.under root x); [| trivial].
    rewrite orb_false_r. now destruct (_ || _ || _). }
  assert (Hnothing : Fs.nothing_at fs' (FileStore.getPath store key) = true).
  { destruct (below_shape (FileStore.level2 store key) key Hplain)
      as (_ & Hendp & _).
    rewrite <- Hp in Hendp.
    unfold Fs.nothing_at. rewrite (chop_plain _ Hendp).
    apply andb_true_iff. split; apply negb_true_iff.
    - unfold Fs.exists_at. rewrite Hp at 1.
      rewrite (is_directory_below fs' _ _ Hplain), <- Hp, (Hgone _ Hu).
      reflexivity.
    - assert (Hfree : forall x, Fs.under root x = true ->
                                Fs.not_a_directory fs' x = false).
      { intros x Hx. unfold Fs.not_a_directory, Fs.exists_at.
        rewrite (Hgone _ Hx), orb_false_r. apply andb_negb_r. }
      unfold Fs.blocked. rewrite (entry_ancestors key Hkey). cbn [existsb].
      rewrite (Hfree _ Hu2), (Hfree _ Hu1), (Hfree _ Hu0). simpl.
      unfold Fs.blocked in Hblocked.
      destruct (existsb (Fs.not_a_directory fs') _) eqn:Hex; [| reflexivity].
      apply existsb_exists in Hex as (x & Hin & Hx).
      rewrite <- Hblocked. symmetry. apply existsb_exists.
      exists x. split; [exact Hin | now apply Hless]. }
  unfold FileStore.get, FileStore.read_entry.
  now rewrite (readFile_nothing _ _ Hnothing).
Qed.

End StoreLayout.

(** * What [mkdirp] changes *)
Section MkdirFacts.

Variable lim : Fs.limits.

Lemma exists_at_false (fs : gmap string Fs.node) (p : string) :
  Fs.exists_at fs p = false ->
  fs !! p = None /\ Fs.is_directory fs p = false.
Proof.
  unfold Fs.exists_at. intros H. apply orb_false_iff in H as [Hd H].
  split; [| exact Hd]. now destruct (fs !! p).
Qed.

Lemma mkdir_error (fs fs1 : gmap string Fs.node) (p : string) (e : Js.error) :
  Fs.mkdir lim fs p = (fs1, inl e) -> fs1 = fs.
Proof.
  unfold Fs.mkdir.
  destruct (Fs.exists_at fs p); [now intros [= <-] |].
  destruct (Fs.is_directory fs (Path.dirname p)); [| now intros [= <-]].
  destruct (Fs.on_mkdir lim p); [now intros [= <-] | discriminate].
Qed.

Lemma grows_refl (fs : gmap string Fs.node) (new : list string) :
  Fs.only_new_directories fs fs new.
Proof. intros x. now left. Qed.

Lemma grows_trans (fs1 fs2 fs3 : gmap string Fs.node) (new : list string) :
  Fs.only_new_directories fs1 fs2 new ->
  Fs.only_new_directories fs2 fs3 new ->
  Fs.only_new_directories fs1 fs3 new.
Proof.
  intros H12 H23 x.
  destruct (H23 x) as [Heq | (Hnone & Hin & Hdir)].
  - rewrite Heq. apply H12.
  - destruct (H12 x) as [Heq | (_ & _ & Hdir2)]; [| congruence].
    right. rewrite <- Heq. auto.
Qed.

Lemma grows_weaken (fs fs' : gmap string Fs.node) (new new' : list string) :
  (forall x, In x new -> In x new') ->
  Fs.only_new_directories fs fs' new -> Fs.only_new_directories fs fs' new'.
Proof.
  intros Hsub H x. destruct (H x) as [Heq | (Hnone & Hin & Hdir)]; auto.
Qed.

Lemma mkdir_grows (fs : gmap string Fs.node) (p : string) :
  Fs.only_new_directories fs (fst (Fs.mkdir lim fs p)) [p].
Proof.
  unfold Fs.mkdir.
  destruct (Fs.exists_at fs p) eqn:Hex; [apply grows_refl |].
  destruct (exists_at_false _ _ Hex) as [Hnone _].
  destruct (Fs.is_directory fs (Path.dirname p)); [| apply grows_refl].
  destruct (Fs.on_mkdir lim p); [apply grows_refl |].
  intros x. simpl. destruct (decide (x = p)) as [-> | Hne].
  - right. rewrite lookup_insert_eq. repeat split; auto.
  - left. now rewrite lookup_insert_ne.
Qed.

Lemma unless_directory_fst (fs : gmap string Fs.node) (p : string)
    (er : Js.error) :
  fst (Fs.unless_directory fs p er) = fs.
Proof. unfold Fs.unless_directory. now destruct (Fs.is_directory fs p). Qed.

(** [mkdirp] adds directories along the lineage of the path and changes
    nothing else: no file is removed, replaced or created. *)
Lemma mkdirs_grows (lineage : list string) (fs : gmap string Fs.node) :
  Fs.only_new_directories fs (fst (Fs.mkdirs lim fs lineage)) lineage.
Proof.
  revert fs. induction lineage as [|p parents IH]; intros fs;
    [apply grows_refl |].
  simpl.
  pose proof (mkdir_grows fs p) as Hfirst.
  destruct (Fs.mkdir lim fs p) as [fs1 [er | []]] eqn:Hmk; simpl in Hfirst.
  - apply mkdir_error in Hmk. subst fs1.
    destruct (Fs.is_ENOENT er); [| rewrite unless_directory_fst; apply grows_refl].
    specialize (IH fs).
    destruct (Fs.mkdirs lim fs parents) as [fs2 [e | []]]; simpl in IH.
    + eapply grows_weaken; [| exact IH]. intros x Hx. now right.
    + apply grows_trans with fs2.
      * eapply grows_weaken; [| exact IH]. intros x Hx. now right.
      * pose proof (mkdir_grows fs2 p) as Hsecond.
        destruct (Fs.mkdir lim fs2 p) as [fs3 [er2 | []]] eqn:Hmk2;
          simpl in Hsecond.
        -- apply mkdir_error in Hmk2. subst fs3.
           rewrite unless_directory_fst. apply grows_refl.
        -- eapply grows_weaken; [| exact Hsecond].
           intros x [<- | []]. now left.
  - eapply grows_weaken; [| exact Hfirst]. intros x [<- | []]. now left.
Qed.

(** What [put] changes besides the file of the entry: directories appear
    above it where nothing was. *)
Lemma put_changes (store : FileStore.t) (fs : gmap string Fs.node)
    (key : string) (obj : Server.CacheEntry) (x : string) :
  x <> FileStore.getPath store key ->
  fst (FileStore.put lim store fs key obj) !! x = fs !! x \/
  (fs !! x = None /\
   In x (Path.ancestors (Path.dirname (FileStore.getPath store key))) /\
   fst (FileStore.put lim store fs key obj) !! x = Some Fs.Directory).
Proof.
  intros Hx. unfold FileStore.put.
  destruct (FileStore.serialize _ obj) as [e | data]; [now left |].
  pose proof (mkdirs_grows
                (Path.ancestors (Path.dirname (FileStore.getPath store key)))
                fs x) as Hgrow.
  unfold Fs.mkdirp.
  destruct (Fs.mkdirs lim fs _) as [fs1 r]. simpl in Hgrow.
  destruct r as [e | []]; [exact Hgrow |].
  destruct (writeFile_cases lim fs1 (FileStore.getPath store key) data)
    as [(-> & _) | [(e & ->) | (e & n & ->)]]; simpl;
    rewrite ?lookup_insert_ne by congruence; exact Hgrow.
Qed.

Lemma existsb_same {A : Type} (f g : A -> bool) (l : list A) :
  (forall x, In x l -> f x = g x) -> existsb f l = existsb g l.
Proof.
  induction l as [|a l IH]; [reflexivity |]. intros H. simpl.
  rewrite (H a) by now left. rewrite IH; [reflexivity |].
  intros x Hx. apply H. now right.
Qed.

(** Directories that appear where nothing was do not change what a read
    finds. *)
Lemma readFile_grown (fs fs' : gmap string Fs.node) (p : string) :
  fs' !! Fs.chop p = fs !! Fs.chop p ->
  (forall x, In x (Path.ancestors (Path.dirname (Fs.chop p))) ->
             fs' !! x = fs !! x \/
             (fs !! x = None /\ fs' !! x = Some Fs.Directory)) ->
  Fs.readFile fs' p = Fs.readFile fs p.
Proof.
  intros Hp Hup.
  unfold Fs.readFile, Fs.missing, Fs.blocked, Fs.is_directory. rewrite Hp.
  rewrite (existsb_same (Fs.not_a_directory fs') (Fs.not_a_directory fs));
    [reflexivity |].
  intros x Hx. unfold Fs.not_a_directory, Fs.exists_at, Fs.is_directory.
  destruct (Hup x Hx) as [-> | [-> ->]]; [reflexivity |].
  rewrite !orb_true_r, !orb_false_r. simpl. now rewrite andb_negb_r.
Qed.

End MkdirFacts.

(** * [put] on the store of part_000 *)
Section StorePut.

Import Js.

Variables (lim : Fs.limits) (b : FileStore.Base) (root : string).

Let store : FileStore.t :=
  {| FileStore.base := b; FileStore.rootDir := root |}.

Hypothesis root_normal : Path.normal_dir root = true.

Lemma mkdirs_cons (fs : gmap string Fs.node) (p : string)
    (parents : list string) :
  Fs.mkdirs lim fs (p :: parents) =
  match Fs.mkdir lim fs p with
  | (fs1, inr _) => (fs1, inr tt)
  | (fs1, inl er) =>
      if Fs.is_ENOENT er then
        match Fs.mkdirs lim fs1 parents with
        | (fs2, inl e) => (fs2, inl e)
        | (fs2, inr _) =>
            match Fs.mkdir lim fs2 p with
            | (fs3, inr _) => (fs3, inr tt)
            | (fs3, inl er2) => Fs.unless_directory fs3 p er2
            end
        end
      else Fs.unless_directory fs1 p er
  end.
Proof. reflexivity. Qed.

(** [mkdir] of a plain name where nothing is, in a directory that is
    there, when the system does not refuse. *)
Lemma mkdir_fresh (fs : gmap string Fs.node) (a s : string) :
  Path.plain_segment s = true ->
  fs !! (a +:+ String "/" s) = None ->
  Fs.is_directory fs (Path.dirname (a +:+ String "/" s)) = true ->
  Fs.on_mkdir lim (a +:+ String "/" s) = None ->
  Fs.mkdir lim fs (a +:+ String "/" s)
    = (<[a +:+ String "/" s := Fs.Directory]> fs, inr tt).
Proof.
  intros Hplain Hnone Hparent Hlim. unfold Fs.mkdir, Fs.exists_at.
  now rewrite (is_directory_below fs a s Hplain), Hnone, Hparent, Hlim.
Qed.

(** With the root directory in place below directories only, nothing but
    directories on the way and no refusal, [mkdirp] on the second fan-out
    directory succeeds. *)
Lemma mkdirp_level2 (fs : gmap string Fs.node) (key : string) :
  digest_keyed key = true ->
  Fs.is_directory fs root = true ->
  Fs.blocked fs root = false ->
  Fs.free_or_directory fs (FileStore.level1 store key) = true ->
  Fs.free_or_directory fs (FileStore.level2 store key) = true ->
  Fs.on_mkdir lim (FileStore.level1 store key) = None ->
  Fs.on_mkdir lim (FileStore.level2 store key) = None ->
  exists fs1,
    Fs.mkdirp lim fs (FileStore.level2 store key) = (fs1, inr tt) /\
    fs1 !! FileStore.level2 store key = Some Fs.Directory.
Proof.
  intros Hkey Hroot Hclear Hfree1 Hfree2 Hlim1 Hlim2.
  destruct (entry_path b root root_normal key Hkey)
    as (_ & Hd & Hdir2 & Hdir1 & Hlen1 & Hlen2 & _).
  pose proof (entry_ancestors b root root_normal key Hkey) as Hanc.
  destruct (entry_names b root root_normal key Hkey)
    as (s1 & s2 & H1 & H2 & _ & Hl1 & Hl2 & _).
  fold store in Hd, Hdir2, Hdir1, Hlen1, Hlen2, Hanc, Hl1, Hl2.
  rewrite Hd in Hanc.
  assert (Hdir_at1 : Fs.is_directory fs (FileStore.level1 store key)
                     = match fs !! FileStore.level1 store key with
                       | Some Fs.Directory => true
                       | _ => false
                       end).
  { rewrite Hl1. apply is_directory_below. exact H1. }
  assert (Hdir_at2 : forall fs0,
            Fs.is_directory fs0 (FileStore.level2 store key)
            = match fs0 !! FileStore.level2 store key with
              | Some Fs.Directory => true
              | _ => false
              end).
  { intros fs0. rewrite Hl2. apply is_directory_below. exact H2. }
  assert (Hfresh1 : forall fs0,
            fs0 !! FileStore.level1 store key = None ->
            Fs.is_directory fs0 root = true ->
            Fs.mkdir lim fs0 (FileStore.level1 store key)
            = (<[FileStore.level1 store key := Fs.Directory]> fs0, inr tt)).
  { intros fs0 Hnone Hr. revert Hnone. rewrite Hl1. intros Hnone.
    apply mkdir_fresh; try assumption.
    - rewrite <- Hl1. now rewrite Hdir1.
    - now rewrite <- Hl1. }
  assert (Hfresh2 : forall fs0,
            fs0 !! FileStore.level2 store key = None ->
            fs0 !! FileStore.level1 store key = Some Fs.Directory ->
            Fs.mkdir lim fs0 (FileStore.level2 store key)
            = (<[FileStore.level2 store key := Fs.Directory]> fs0, inr tt)).
  { intros fs0 Hnone Hparent. revert Hnone. rewrite Hl2. intros Hnone.
    apply mkdir_fresh; try assumption.
    - rewrite <- Hl2, Hdir2, Hl1, (is_directory_below fs0 _ _ H1), <- Hl1.
      now rewrite Hparent.
    - now rewrite <- Hl2. }
  unfold Fs.mkdirp. rewrite Hanc.
  unfold Fs.free_or_directory in Hfree1, Hfree2.
  rewrite mkdirs_cons.
  destruct (fs !! FileStore.level2 store key) as [[| |] |] eqn:Hat2;
    try discriminate Hfree2.
  - exists fs. split; [| exact Hat2].
    unfold Fs.mkdir, Fs.exists_at. rewrite Hat2, orb_true_r.
    unfold Fs.unless_directory. now rewrite Hdir_at2, Hat2.
  - destruct (fs !! FileStore.level1 store key) as [[| |] |] eqn:Hat1;
      try discriminate Hfree1.
    + rewrite (Hfresh2 fs Hat2 Hat1).
      eexists. split; [reflexivity | apply lookup_insert_eq].
    + assert (Hne : FileStore.level1 store key <> FileStore.level2 store key).
      { intros Heq. rewrite Heq in Hlen1. lia. }
      assert (Hfirst : Fs.mkdir lim fs (FileStore.level2 store key)
                       = (fs, inl (Fs.errno "ENOENT"))).
      { unfold Fs.mkdir, Fs.exists_at, Fs.missing.
        rewrite Hdir_at2, Hat2, Hdir2, Hdir_at1, ?Hat1. simpl orb. cbv iota.
        destruct (normal_dir_not_special b root root_normal)
          as (Hne0 & _ & Hsp0).
        destruct (below_shape root s1 H1) as (Hne1 & _ & Hsp1 & _).
        rewrite <- Hl1 in Hne1, Hsp1.
        assert (Hb : Fs.blocked fs (FileStore.level2 store key) = false).
        { unfold Fs.blocked. rewrite Hdir2.
          rewrite (ancestors_cons _ Hne1 Hsp1), Hdir1.
          rewrite (ancestors_cons _ Hne0 Hsp0).
          cbn [existsb]. unfold Fs.blocked in Hclear. rewrite Hclear.
          unfold Fs.not_a_directory, Fs.exists_at.
          rewrite Hdir_at1, Hat1, Hroot. reflexivity. }
        now rewrite Hb. }
      rewrite Hfirst. simpl Fs.is_ENOENT. cbv iota.
      rewrite mkdirs_cons, (Hfresh1 fs Hat1 Hroot).
      rewrite Hfresh2.
      * eexists. split; [reflexivity | apply lookup_insert_eq].
      * now rewrite lookup_insert_ne.
      * apply lookup_insert_eq.
Qed.

(** X18: for a root directory in normal form that is in place below
    directories only, and a key of the server's shape: when nothing but
    directories stands where the two fan-out directories go, nothing but a
    file that may be replaced where the entry goes, and the system refuses
    neither making the two directories nor opening and writing the file,
    then [put] of an entry that serializes succeeds: it makes the
    directories that are missing, and the entry's file holds the
    serialized bytes. *)
Theorem put_succeeds (fs : gmap string Fs.node) (key data : string)
    (obj : Server.CacheEntry) :
  digest_keyed key = true ->
  FileStore.serialize b obj = inr data ->
  Fs.is_directory fs root = true ->
  Fs.blocked fs root = false ->
  Fs.free_or_directory fs (FileStore.level1 store key) = true ->
  Fs.free_or_directory fs (FileStore.level2 store key) = true ->
  Fs.free_or_file fs (FileStore.getPath store key) = true ->
  Fs.on_mkdir lim (FileStore.level1 store key) = None ->
  Fs.on_mkdir lim (FileStore.level2 store key) = None ->
  Fs.on_open lim (FileStore.getPath store key) = None ->
  Fs.on_write lim (FileStore.getPath store key) = None ->
  snd (FileStore.put lim store fs key obj) = inr tt /\
  fst (FileStore.put lim store fs key obj) !! FileStore.getPath store key
    = Some (Fs.File data) /\
  fst (FileStore.put lim store fs key obj) !! FileStore.level2 store key
    = Some Fs.Directory.
Proof.
  intros Hkey Hser Hroot Hclear Hfree1 Hfree2 Hfile Hlim1 Hlim2 Hopen Hwr.
  destruct (entry_path b root root_normal key Hkey)
    as (_ & Hdir & _ & _ & _ & Hlen2 & Hlen).
  destruct (entry_names b root root_normal key Hkey)
    as (s1 & s2 & H1 & H2 & Hplain & Hl1 & Hl2 & Hp).
  fold store in Hdir, Hlen2, Hlen, Hl1, Hl2, Hp.
  destruct (mkdirp_level2 fs key Hkey Hroot Hclear Hfree1 Hfree2 Hlim1 Hlim2)
    as (fs1 & Hmk & Hdir2).
  pose proof (mkdirs_grows lim (Path.ancestors (FileStore.level2 store key)) fs)
    as Hgrow.
  unfold Fs.mkdirp in Hmk. rewrite Hmk in Hgrow. simpl in Hgrow.
  assert (Hsame : fs1 !! FileStore.getPath store key
                  = fs !! FileStore.getPath store key).
  { destruct (Hgrow (FileStore.getPath store key))
      as [Heq | (_ & Hin & _)]; [exact Heq |].
    apply ancestors_length in Hin. lia. }
  assert (Hne : FileStore.getPath store key <> FileStore.level2 store key).
  { intros Heq. rewrite Heq in Hlen. lia. }
  destruct (below_shape (FileStore.level2 store key) key Hplain)
    as (_ & Hend & _).
  rewrite <- Hp in Hend.
  assert (Hwrite : Fs.writeFile lim fs1 (FileStore.getPath store key) data
                   = (<[FileStore.getPath store key := Fs.File data]> fs1,
                      inr tt)).
  { unfold Fs.writeFile, Fs.free_or_file in *.
    rewrite (chop_plain _ Hend), Hend, Hdir, Hopen, Hwr.
    rewrite Hp at 1. rewrite (is_directory_below fs1 _ _ Hplain), <- Hp.
    rewrite Hl2 at 1.
    rewrite (is_directory_below fs1 _ _ H2), <- Hl2, Hdir2, Hsame.
    now destruct (fs !! FileStore.getPath store key) as [[| |] |]. }
  unfold FileStore.put. simpl FileStore.base. rewrite Hser, Hdir.
  unfold Fs.mkdirp. rewrite Hmk, Hwrite. simpl.
  rewrite lookup_insert_eq, lookup_insert_ne by exact Hne. auto.
Qed.

(** X17: for a root directory in normal form and two different keys of
    the server's shape, writing the entry of one leaves the entry of the
    other as it was: after [put], whether it succeeded, failed or was cut
    short, [get] on the other key returns what it returned before. *)
Theorem put_leaves_other_entries (fs : gmap string Fs.node)
    (key key' : string) (obj : Server.CacheEntry) :
  digest_keyed key = true ->
  digest_keyed key' = true ->
  key <> key' ->
  FileStore.get store (fst (FileStore.put lim store fs key obj)) key' =
  FileStore.get store fs key'.
Proof.
  intros Hkey Hkey' Hne.
  destruct (entry_path b root root_normal key Hkey)
    as (_ & _ & _ & _ & _ & _ & Hlen).
  destruct (entry_path b root root_normal key' Hkey')
    as (_ & Hdir' & _ & _ & _ & Hlen2' & _).
  destruct (entry_names b root root_normal key' Hkey')
    as (_ & _ & _ & _ & Hplain' & _ & _ & Hp').
  fold store in Hlen, Hdir', Hlen2', Hp'.
  destruct (below_shape (FileStore.level2 store key') key' Hplain')
    as (_ & Hend' & _).
  rewrite <- Hp' in Hend'.
  assert (Hpaths : FileStore.getPath store key' <> FileStore.getPath store key).
  { intros Heq. apply Hne. symmetry.
    now apply (entry_path_inj b root root_normal). }
  unfold FileStore.get, FileStore.read_entry.
  rewrite (readFile_grown fs (fst (FileStore.put lim store fs key obj)));
    [reflexivity | |]; rewrite (chop_plain _ Hend').
  - destruct (put_changes lim store fs key obj _ Hpaths)
      as [Heq | (_ & Hin & _)]; [exact Heq |].
    apply ancestors_length in Hin.
    destruct (entry_path b root root_normal key Hkey)
      as (_ & Hdir & _ & _ & _ & Hlen2 & _).
    destruct (entry_path b root root_normal key' Hkey')
      as (_ & _ & _ & _ & _ & _ & Hlen').
    fold store in Hdir, Hlen2, Hlen'. rewrite Hdir in Hin. lia.
  - intros x Hx.
    destruct (put_changes lim store fs key obj x) as [Heq | (Hnone & _ & Hd)];
      [| now left | now right].
    intros Heq. subst x. rewrite Hdir' in Hx.
    apply ancestors_length in Hx. lia.
Qed.

End StorePut.

(** * The server on the filesystem store *)
Section Repeats.

Import Js Server.

Variables (lim : Fs.limits) (cfg : Config) (lib : Lib) (store : FileStore.t).
Variables (queue : Job -> value -> result CacheEntry).
Variables (req : Request) (res0 : Response).

(** X19: repeating a request after a miss is a hit. When the first lookup
    finds nothing, the queue resolves to a result that serialization round
    trips, and the write-behind succeeds, then the same request served on
    the file system the first one left is answered from the cache: the same
    body and content type with [X-Cache: hit], nothing enqueued, and the
    file system left as it is. *)
Theorem repeat_is_a_hit q preamble compatibleQuery ast
    (fs : gmap string Fs.node) (result : CacheEntry) :
  accepted lib req q preamble compatibleQuery ast ->
  let key := cacheKey_of cfg (digest_of (normalizedQuery_of lib preamble ast)
                                        (accept_of cfg req)) in
  FileStore.get store fs key = inr None ->
  queue (make_job cfg req q (accept_of cfg req)) (assoc "token" (query req))
    = inr result ->
  FileStore.round_trips (FileStore.base store) result ->
  snd (FileStore.put lim store fs key result) = inr tt ->
  let first := Deployment.serve lim cfg lib store queue fs req res0 in
  let second :=
    Deployment.serve lim cfg lib store queue (snd first) req res0 in
  res (fst first) =
    {| status := status res0;
       headers := <["Content-Type" := contentType result]> (headers res0);
       sent := Some (entry_body result) |} /\
  res (fst second) =
    {| status := status res0;
       headers := <["X-Cache" := "hit"]>
                    (<["Content-Type" := contentType result]> (headers res0));
       sent := Some (entry_body result) |} /\
  enqueued (events (fst second)) = [] /\
  snd second = snd first.
Proof.
  intros Hacc key Hmiss Hqueue Hround Hput first second.
  assert (Hfirst : first =
    (run_job cfg (Deployment.file_cache lim store fs queue) req q
       (accept_of cfg req) key (emit (CacheGet key) (start res0)),
     fst (FileStore.put lim store fs key result))).
  { subst first. unfold Deployment.serve.
    rewrite (handler_accepted _ _ _ _ _ _ _ _ _ Hacc). fold key.
    unfold lookup_then_run. simpl cache_get. rewrite Hmiss.
    unfold run_job, log. simpl queue_enqueue. rewrite Hqueue.
    simpl cache_put. rewrite Hput.
    destruct (truthy (of_option (queryLogPath cfg))); reflexivity. }
  assert (Hstored :
    FileStore.get store (fst (FileStore.put lim store fs key result)) key
    = inr (Some result)).
  { apply (written_is_read lim store fs _ key result Hround).
    destruct (FileStore.put lim store fs key result) as [fs1 r].
    simpl in Hput. now subst r. }
  subst second. rewrite Hfirst. simpl snd. simpl fst.
  split.
  - unfold run_job, log. simpl queue_enqueue. rewrite Hqueue.
    simpl cache_put. rewrite Hput.
    destruct (truthy (of_option (queryLogPath cfg))); reflexivity.
  - unfold Deployment.serve.
    rewrite (handler_accepted _ _ _ _ _ _ _ _ _ Hacc). fold key.
    unfold lookup_then_run. simpl cache_get. rewrite Hstored.
    unfold respond_hit, log.
    destruct (truthy (of_option (queryLogPath cfg))); repeat split.
Qed.

End Repeats.

(** * The admin cookie *)
Section AdminCookie.

Import Js Server.

(** What [encodeURIComponent] does to one character, checked on all of
    them. *)
Lemma encode_char (c : ascii) :
  if Cookie.unreserved c
  then Ascii.eqb c "%" = false /\ Cookie.plain_char c = true /\
       Cookie.field_char c = true
  else Cookie.hex_digit (Cookie.upper_hex (nat_of_ascii c / 16))
         = Some (nat_of_ascii c / 16) /\
       Cookie.hex_digit (Cookie.upper_hex (nat_of_ascii c mod 16))
         = Some (nat_of_ascii c mod 16) /\
       ascii_of_nat (16 * (nat_of_ascii c / 16) + nat_of_ascii c mod 16) = c /\
       Cookie.plain_char (Cookie.upper_hex (nat_of_ascii c / 16)) = true /\
       Cookie.plain_char (Cookie.upper_hex (nat_of_ascii c mod 16)) = true /\
       Cookie.field_char (Cookie.upper_hex (nat_of_ascii c / 16)) = true /\
       Cookie.field_char (Cookie.upper_hex (nat_of_ascii c mod 16)) = true.
Proof.
  destruct c as [[] [] [] [] [] [] [] []]; vm_compute; repeat split.
Qed.

Lemma encodeURIComponent_cons (c : ascii) (s : string) :
  Cookie.encodeURIComponent (String c s) =
    if Cookie.unreserved c then String c (Cookie.encodeURIComponent s)
    else String "%" (String (Cookie.upper_hex (nat_of_ascii c / 16))
                       (String (Cookie.upper_hex (nat_of_ascii c mod 16))
                          (Cookie.encodeURIComponent s))).
Proof. reflexivity. Qed.

Lemma percent_decode_escape (h l : ascii) (s : string) :
  Cookie.percent_decode (String "%" (String h (String l s))) =
    match Cookie.hex_digit h, Cookie.hex_digit l, Cookie.percent_decode s with
    | Some a, Some b, Some r => Some (String (ascii_of_nat (16 * a + b)) r)
    | _, _, _ => None
    end.
Proof. reflexivity. Qed.

Lemma percent_decode_literal (c : ascii) (s r : string) :
  Ascii.eqb c "%" = false -> Cookie.percent_decode s = Some r ->
  Cookie.percent_decode (String c s) = Some (String c r).
Proof.
  intros Hc Hs. cbn [Cookie.percent_decode]. rewrite Hc.
  destruct s as [|c' s'].
  - cbn [Cookie.percent_decode] in Hs. now injection Hs as <-.
  - now rewrite Hs.
Qed.

Lemma decode_encode (s : string) :
  Cookie.percent_decode (Cookie.encodeURIComponent s) = Some s.
Proof.
  induction s as [|c s IH]; [reflexivity |].
  pose proof (encode_char c) as Hc. rewrite encodeURIComponent_cons.
  destruct (Cookie.unreserved c).
  - destruct Hc as (Hpercent & _). now apply percent_decode_literal.
  - destruct Hc as (Hhi & Hlo & Hchar & _).
    now rewrite percent_decode_escape, Hhi, Hlo, IH, Hchar.
Qed.

Lemma encoded_plain (s : string) :
  Cookie.plain_chars (Cookie.encodeURIComponent s) = true /\
  Cookie.field_chars (Cookie.encodeURIComponent s) = true.
Proof.
  induction s as [|c s [IHp IHf]]; [now split |].
  pose proof (encode_char c) as Hc. rewrite encodeURIComponent_cons.
  destruct (Cookie.unreserved c).
  - destruct Hc as (_ & Hp & Hf).
    cbn [Cookie.plain_chars Cookie.field_chars]. now rewrite Hp, Hf, IHp, IHf.
  - destruct Hc as (_ & _ & _ & Hp1 & Hp2 & Hf1 & Hf2).
    cbn [Cookie.plain_chars Cookie.field_chars].
    now rewrite Hp1, Hp2, Hf1, Hf2, IHp, IHf.
Qed.

Lemma split_pairs_plain (s : string) :
  Cookie.plain_chars s = true -> Cookie.split_pairs_from false s = [s].
Proof.
  induction s as [|c s IH]; [reflexivity |]. simpl. intros H.
  apply andb_true_iff in H as [Hc Hs]. unfold Cookie.plain_char in Hc.
  apply andb_true_iff in Hc as [Hc _]. apply andb_true_iff in Hc as [_ Hc].
  apply negb_true_iff in Hc. now rewrite Hc, (IH Hs).
Qed.

Lemma rev_app_plain (s acc : string) :
  Cookie.plain_chars s = true -> Cookie.plain_chars acc = true ->
  Cookie.plain_chars (String.rev_app s acc) = true.
Proof.
  revert acc. induction s as [|c s IH]; intros acc Hs Hacc; [exact Hacc |].
  simpl in *. apply andb_true_iff in Hs as [Hc Hs].
  apply IH; [exact Hs |]. simpl. now rewrite Hc.
Qed.

Lemma rev_app_rev_app (s acc : string) :
  String.rev_app (String.rev_app s acc) "" = String.rev_app acc s.
Proof.
  revert acc. induction s as [|c s IH]; intros acc; [reflexivity |].
  simpl. now rewrite IH.
Qed.

Lemma trim_start_plain (s : string) :
  Cookie.plain_chars s = true -> Cookie.trim_start s = s.
Proof.
  destruct s as [|c s]; [reflexivity |]. simpl. intros H.
  apply andb_true_iff in H as [Hc _]. unfold Cookie.plain_char in Hc.
  apply andb_true_iff in Hc as [Hc _]. apply andb_true_iff in Hc as [Hc _].
  apply negb_true_iff in Hc. now rewrite Hc.
Qed.

Lemma trim_plain (s : string) :
  Cookie.plain_chars s = true -> Cookie.trim s = s.
Proof.
  intros H. unfold Cookie.trim, String.rev.
  rewrite (trim_start_plain s H).
  rewrite trim_start_plain by (now apply rev_app_plain).
  apply rev_app_rev_app.
Qed.

Lemma strip_quotes_plain (s : string) :
  Cookie.plain_chars s = true -> Cookie.strip_quotes s = s.
Proof.
  destruct s as [|c s]; [reflexivity |]. simpl. intros H.
  apply andb_true_iff in H as [Hc _]. unfold Cookie.plain_char in Hc.
  apply andb_true_iff in Hc as [_ Hc]. apply negb_true_iff in Hc.
  now rewrite Hc.
Qed.

(** A header that holds one pair, the value encoded as [res.cookie] encodes
    it, parses to that name and the value. *)
Lemma parse_serialized (name value : string) :
  Cookie.plain_chars name = true ->
  Cookie.cut_at_eq (name +:+ "=" +:+ Cookie.encodeURIComponent value)
    = Some (name, Cookie.encodeURIComponent value) ->
  Cookie.parse (Some (name +:+ "=" +:+ Cookie.encodeURIComponent value))
    = inr [(name, value)].
Proof.
  intros Hname Hcut.
  destruct (encoded_plain value) as [Hplain _].
  unfold Cookie.parse, Cookie.split_pairs.
  rewrite split_pairs_plain.
  - simpl. rewrite Hcut, (trim_plain _ Hname), (trim_plain _ Hplain),
      (strip_quotes_plain _ Hplain).
    unfold Cookie.tryDecode. now rewrite decode_encode.
  - clear Hcut. induction name as [|c name IH].
    + rewrite string_app_nil_l. exact Hplain.
    + rewrite string_app_cons. simpl in *.
      apply andb_true_iff in Hname as [-> Hname]. now apply IH.
Qed.

(** X20: the cookie that [/admin] sets opens the live channel: for every
    admin user and password, [res.cookie] serializes the secret into a
    pair [sparql-proxy-token=...] followed by [; Path=/], and a handshake
    whose [Cookie] header is that pair passes the authentication
    middleware. *)
Theorem admin_cookie_authenticates (cfg : Config) (socket_id : string) :
  let pair := cookieKey +:+ "=" +:+ Cookie.encodeURIComponent (secret cfg) in
  admin_set_cookie cfg = inr (pair +:+ "; Path=/") /\
  io_auth cfg socket_id (Some pair) = ([], Accepted).
Proof.
  intros pair. split.
  - unfold admin_set_cookie, Cookie.serialize.
    destruct (encoded_plain (secret cfg)) as [_ Hfield].
    unfold Cookie.field_content at 2. rewrite Hfield.
    simpl. now destruct (String.eqb _ "").
  - unfold io_auth. subst pair.
    rewrite (parse_serialized cookieKey (secret cfg)); [| reflexivity ..].
    simpl. now rewrite String.eqb_refl.
Qed.

End AdminCookie.

(** * The properties above at sample requests and sample stores *)
Section MoreExamples.

Import Js Server.

(** X2 at a [DELETE]. *)
Lemma other_methods_not_allowed_witness :
  let run := sparql_handler Sample.config Sample.lib
               (Sample.env (inr None) (inr tt) (inr Sample.json_entry))
               Sample.delete_request fresh_response in
  res run = {| status := 405%N; headers := headers fresh_response;
               sent := Some (Str "Method Not Allowed") |} /\
  events run = [Responded (res run)] /\
  thrown run = None.
Proof.
  apply (other_methods_not_allowed Sample.config Sample.lib
           (Sample.env (inr None) (inr tt) (inr Sample.json_entry))
           Sample.delete_request fresh_response); reflexivity.
Defined.

(** X3 at a [GET] whose query is the empty string. *)
Lemma missing_query_rejected_witness :
  let run := sparql_handler Sample.config Sample.lib
               (Sample.env (inr None) (inr tt) (inr Sample.json_entry))
               (Sample.get_request "" None) fresh_response in
  res run = {| status := 400%N; headers := headers fresh_response;
               sent := Some (Obj [("message", Str "Query is required")]) |} /\
  events run = [Responded (res run)] /\
  thrown run = None.
Proof.
  apply (missing_query_rejected Sample.config Sample.lib
           (Sample.env (inr None) (inr tt) (inr Sample.json_entry))
           (Sample.get_request "" None) fresh_response (Str ""));
    reflexivity.
Defined.

(** X6 at a full queue. *)
Lemma queue_failure_response_witness :
  let run := sparql_handler Sample.config Sample.lib
               (Sample.env (inr None) (inr tt) (inl Sample.queue_full))
               (Sample.get_request Sample.select_one None) fresh_response in
  res run = {| status := error_status Sample.queue_full;
               headers := headers fresh_response;
               sent := Some (if truthy (data Sample.queue_full)
                             then data Sample.queue_full else Str "ERROR") |} /\
  responses (events run) = [res run] /\
  cache_puts (events run) = [] /\
  query_logs (events run) = [] /\
  thrown run = None.
Proof.
  apply (queue_failure_response Sample.config Sample.lib
           (Sample.env (inr None) (inr tt) (inl Sample.queue_full))
           (Sample.get_request Sample.select_one None) fresh_response
           (Str Sample.select_one) "" Sample.select_one
           ("query", Sample.select_one) Sample.queue_full);
    first [reflexivity | repeat split; reflexivity].
Defined.

(** X7 at a cache miss with a log path configured. *)
Lemma query_log_lines_witness :
  query_logs (events (sparql_handler (Sample.logging_config "/var/log/queries")
     Sample.lib (Sample.env (inr None) (inr tt) (inr Sample.json_entry))
     (Sample.get_request Sample.select_one None) fresh_response)) =
  [(Str Sample.select_one, false, contentType Sample.json_entry,
    entry_body Sample.json_entry)].
Proof.
  apply (query_log_lines (Sample.logging_config "/var/log/queries")
           Sample.lib (Sample.env (inr None) (inr tt) (inr Sample.json_entry))
           (Sample.get_request Sample.select_one None) fresh_response
           (Str Sample.select_one) "" Sample.select_one
           ("query", Sample.select_one)).
  repeat split; reflexivity.
Defined.

(** X8 at a form post that carries a token in its body. *)
Lemma token_from_query_string_witness :
  let req := Sample.form_request Sample.select_one "job-1" in
  let run := sparql_handler Sample.config Sample.lib
               (Sample.env (inr None) (inr tt) (inr Sample.json_entry))
               req fresh_response in
  In (Enqueue (make_job Sample.config req (Str Sample.select_one)
                 (accept_of Sample.config req))
              (assoc "token" (query req))) (events run) /\
  forall job token,
    In (Enqueue job token) (events run) -> token = assoc "token" (query req).
Proof.
  apply (token_from_query_string Sample.config Sample.lib
           (Sample.env (inr None) (inr tt) (inr Sample.json_entry))
           (Sample.form_request Sample.select_one "job-1") fresh_response
           (Str Sample.select_one) "" Sample.select_one
           ("query", Sample.select_one));
    first [reflexivity | repeat split; reflexivity].
Defined.

(** X10 at a [GET] and a direct [POST] of the same query. *)
Lemma same_canonical_same_key_witness :
  exists key rest1 rest2,
    events (sparql_handler Sample.config Sample.lib
              (Sample.env (inr None) (inr tt) (inr Sample.json_entry))
              (Sample.get_request Sample.select_one None) fresh_response)
      = CacheGet key :: rest1 /\
    events (sparql_handler Sample.config Sample.lib
              (Sample.env (inr (Some Sample.json_entry)) (inr tt)
                 (inl Sample.queue_full))
              (Sample.post_request Sample.select_one) fresh_response)
      = CacheGet key :: rest2.
Proof.
  apply (same_canonical_same_key Sample.config Sample.lib Sample.lib
           (Sample.env (inr None) (inr tt) (inr Sample.json_entry))
           (Sample.env (inr (Some Sample.json_entry)) (inr tt)
              (inl Sample.queue_full))
           (Sample.get_request Sample.select_one None)
           (Sample.post_request Sample.select_one)
           fresh_response fresh_response
           (Str Sample.select_one) "" Sample.select_one
           ("query", Sample.select_one)
           (Str Sample.select_one) "" Sample.select_one
           ("query", Sample.select_one));
    first [reflexivity | repeat split; reflexivity].
Defined.

(** X11 on an empty file system. *)
Lemma put_then_get_witness :
  FileStore.get (FileStore.construct Sample.base None)
    (fst (FileStore.put Fs.unlimited (FileStore.construct Sample.base None) ∅
            "d41d8cd98f00b204e9800998ecf8427e.raw" Sample.json_entry))
    "d41d8cd98f00b204e9800998ecf8427e.raw" = inr (Some Sample.json_entry).
Proof.
  apply (put_then_get Fs.unlimited (FileStore.construct Sample.base None) ∅
           (fst (FileStore.put Fs.unlimited
                   (FileStore.construct Sample.base None) ∅
                   "d41d8cd98f00b204e9800998ecf8427e.raw" Sample.json_entry))
           "d41d8cd98f00b204e9800998ecf8427e.raw" Sample.json_entry);
    vm_compute; reflexivity.
Defined.

(** X12 on an empty file system. *)
Lemma plain_put_then_get_witness :
  PlainFileStore.get {| PlainFileStore.rootDir := "/tmp/cache" |}
    (fst (PlainFileStore.put Fs.unlimited
            {| PlainFileStore.rootDir := "/tmp/cache" |} ∅
            "d41d8cd98f00b204e9800998ecf8427e.raw" "{}"))
    "d41d8cd98f00b204e9800998ecf8427e.raw" = inr (Some "{}").
Proof.
  apply (plain_put_then_get Fs.unlimited
           {| PlainFileStore.rootDir := "/tmp/cache" |} ∅
           (fst (PlainFileStore.put Fs.unlimited
                   {| PlainFileStore.rootDir := "/tmp/cache" |} ∅
                   "d41d8cd98f00b204e9800998ecf8427e.raw" "{}"))
           "d41d8cd98f00b204e9800998ecf8427e.raw" "{}");
    vm_compute; reflexivity.
Defined.

(** X13 at a key of one character. *)
Lemma plain_store_short_key_witness :
  let store := {| PlainFileStore.rootDir := "/tmp/cache" |} in
  let e := TypeError "Path must be a string. Received undefined" in
  PlainFileStore.getPath store "d" = inl e /\
  PlainFileStore.get store ∅ "d" = inl e /\
  PlainFileStore.put Fs.unlimited store ∅ "d" "{}" = (∅, inl e).
Proof.
  apply (plain_store_short_key Fs.unlimited
           {| PlainFileStore.rootDir := "/tmp/cache" |} ∅ "d" "{}");
    reflexivity.
Defined.

(** A key of one character of two bytes throws as well; a key of one
    character beyond the basic plane has two code units and a path. *)
Example short_keys_beyond_ascii :
  let store := {| PlainFileStore.rootDir := "/tmp/cache" |} in
  let e_acute := String (ascii_of_nat 195) (String (ascii_of_nat 169) "") in
  let smiley :=
    String (ascii_of_nat 240) (String (ascii_of_nat 159)
      (String (ascii_of_nat 152) (String (ascii_of_nat 128) ""))) in
  PlainFileStore.getPath store e_acute
    = inl (TypeError "Path must be a string. Received undefined") /\
  PlainFileStore.getPath store smiley
    = inr ("/tmp/cache/" +:+ replacement +:+ "/" +:+ replacement +:+ "/"
           +:+ smiley).
Proof. split; reflexivity. Qed.

(** X14 at a root directory that exists. *)
Lemma file_store_empty_key_witness :
  let store := {| FileStore.base := Sample.base;
                  FileStore.rootDir := "/tmp/cache" |} in
  FileStore.getPath store "" = "/tmp/cache" /\
  FileStore.get store {[ "/tmp/cache" := Fs.Directory ]} ""
    = inl (Fs.errno "EISDIR").
Proof.
  apply (file_store_empty_key Sample.base "/tmp/cache"
           {[ "/tmp/cache" := Fs.Directory ]}); vm_compute; reflexivity.
Defined.

(** X15 at one key. *)
Lemma getPath_injective_witness :
  "d41d8cd98f00b204e9800998ecf8427e.raw"
  = "d41d8cd98f00b204e9800998ecf8427e.raw".
Proof.
  apply (getPath_injective Sample.base "/tmp/cache");
    vm_compute; reflexivity.
Defined.

(** X16 at a store that holds one entry. *)
Lemma purge_then_get_witness :
  FileStore.get {| FileStore.base := Sample.base;
                   FileStore.rootDir := "/tmp/cache" |}
    {[ "/tmp" := Fs.Directory ]}
    "d41d8cd98f00b204e9800998ecf8427e.raw" = inr None.
Proof.
  apply (purge_then_get Sample.base "/tmp/cache" eq_refl Fs.unlimited
           {[ "/tmp" := Fs.Directory;
              "/tmp/cache" := Fs.Directory;
              "/tmp/cache/d4" := Fs.Directory;
              "/tmp/cache/d4/1d" := Fs.Directory;
              "/tmp/cache/d4/1d/d41d8cd98f00b204e9800998ecf8427e.raw"
                := Fs.File "{}" ]});
    vm_compute; reflexivity.
Defined.

(** X17 at two digests. *)
Lemma put_leaves_other_entries_witness :
  let store := {| FileStore.base := Sample.base;
                  FileStore.rootDir := "/tmp/cache" |} in
  let fs : gmap string Fs.node :=
    {[ "/tmp" := Fs.Directory;
       "/tmp/cache" := Fs.Directory;
       "/tmp/cache/d4" := Fs.Directory;
       "/tmp/cache/d4/1d" := Fs.Directory;
       "/tmp/cache/d4/1d/d41d8cd98f00b204e9800998ecf8427e.raw"
         := Fs.File "{}" ]} in
  FileStore.get store
    (fst (FileStore.put Fs.unlimited store fs
            "969d668a19f6637e3f30286fa5ae65b2.raw" Sample.json_entry))
    "d41d8cd98f00b204e9800998ecf8427e.raw"
  = FileStore.get store fs "d41d8cd98f00b204e9800998ecf8427e.raw".
Proof.
  apply (put_leaves_other_entries Fs.unlimited Sample.base "/tmp/cache");
    first [vm_compute; reflexivity | discriminate].
Defined.

(** X18 at a root directory that exists and is empty. *)
Lemma put_succeeds_witness :
  let store := {| FileStore.base := Sample.base;
                  FileStore.rootDir := "/tmp/cache" |} in
  let fs : gmap string Fs.node :=
    {[ "/tmp" := Fs.Directory; "/tmp/cache" := Fs.Directory ]} in
  let key := "d41d8cd98f00b204e9800998ecf8427e.raw" in
  snd (FileStore.put Fs.unlimited store fs key Sample.json_entry) = inr tt /\
  fst (FileStore.put Fs.unlimited store fs key Sample.json_entry)
    !! FileStore.getPath store key = Some (Fs.File "{}") /\
  fst (FileStore.put Fs.unlimited store fs key Sample.json_entry)
    !! FileStore.level2 store key = Some Fs.Directory.
Proof.
  apply (put_succeeds Fs.unlimited Sample.base "/tmp/cache");
    vm_compute; reflexivity.
Defined.

(** X19 at a [GET] served twice from an empty file system. *)
Lemma repeat_is_a_hit_witness :
  let store := FileStore.construct Sample.base None in
  let queue := fun (_ : Job) (_ : value) =>
                 inr Sample.json_entry : result CacheEntry in
  let req := Sample.get_request Sample.select_one None in
  let first := Deployment.serve Fs.unlimited Sample.config Sample.lib store
                 queue ∅ req fresh_response in
  let second := Deployment.serve Fs.unlimited Sample.config Sample.lib store
                  queue (snd first) req fresh_response in
  res (fst first) =
    {| status := status fresh_response;
       headers := <["Content-Type" := contentType Sample.json_entry]>
                    (headers fresh_response);
       sent := Some (entry_body Sample.json_entry) |} /\
  res (fst second) =
    {| status := status fresh_response;
       headers := <["X-Cache" := "hit"]>
                    (<["Content-Type" := contentType Sample.json_entry]>
                       (headers fresh_response));
       sent := Some (entry_body Sample.json_entry) |} /\
  enqueued (events (fst second)) = [] /\
  snd second = snd first.
Proof.
  apply (repeat_is_a_hit Fs.unlimited Sample.config Sample.lib
           (FileStore.construct Sample.base None)
           (fun _ _ => inr Sample.json_entry)
           (Sample.get_request Sample.select_one None) fresh_response
           (Str Sample.select_one) "" Sample.select_one
           ("query", Sample.select_one) ∅ Sample.json_entry);
    first [repeat split; reflexivity | vm_compute; reflexivity].
Defined.

End MoreExamples.
